(** * The msm DMA-IOMMU mapping cache (drivers/iommu/msm_dma_iommu_mapping.c)

    A shallow embedding of the two-level reference-counted cache: a
    red-black tree of [msm_iommu_meta] records keyed by buffer, each owning
    a list of [msm_iommu_map] records, one per device.

    The operations are embedded as whole calls: each runs from its first
    statement to its return, so the locks of the source do not appear in
    them.  What the locks leave open, map calls that overlap between a
    search and the insert that follows it, is modelled apart, by the
    segments of a map call ([map_segment]).  Pointers into the tree and into a [maps] list are
    positions in the corresponding sequence; a store through a pointer is an
    [alter] at that position.  Calls that leave the file (kmalloc, kfree,
    dma_map_sg_attrs, dma_unmap_sg, dmb) are recorded, in order, in a trace
    kept in the state. *)

From Stdlib Require Import ZArith Lia.
From stdpp Require Import base tactics option list sorting.

Local Open Scope Z_scope.

(** ** Machine integers: [atomic_t] holds a 32-bit [int] *)

Definition wrap_int (z : Z) : Z := (z + 2 ^ 31) mod 2 ^ 32 - 2 ^ 31.

Definition INT_MAX : Z := 2 ^ 31 - 1.
Definition INT_MIN : Z := - 2 ^ 31.

Definition atomic_inc (v : Z) : Z := wrap_int (v + 1).
Definition atomic_dec_return (v : Z) : Z := wrap_int (v - 1).
Definition atomic_dec_and_test (v : Z) : bool := atomic_dec_return v =? 0.

(** uapi/asm-generic/errno-base.h *)
Definition EINVAL : Z := 22.

(** ** Data model *)

(** [struct device *] and the [void *buffer] key are opaque addresses. *)
Definition device := Z.

Inductive dma_data_direction :=
| DMA_BIDIRECTIONAL
| DMA_TO_DEVICE
| DMA_FROM_DEVICE
| DMA_NONE.

(** The five fields of [struct scatterlist] the file copies ([length] is
    spelled [sg_length]). *)
Record scatterlist := mk_scatterlist {
  page_link : Z;
  offset : Z;
  sg_length : Z;
  dma_address : Z;
  dma_length : Z
}.

(** [struct msm_iommu_map].  The [meta] back pointer is never read by the
    file; a map belongs to the meta whose [maps] list holds it.  [lnode] is
    the position in that list. *)
Record msm_iommu_map := mk_map {
  dev : device;
  sgl : scatterlist;
  dir : dma_data_direction;
  nents : Z;
  map_refcount : Z
}.

(** [struct msm_iommu_meta].  [node] is the position in the tree's in-order
    sequence; [maps] is the list headed by [meta->maps], first entry first. *)
Record msm_iommu_meta := mk_meta {
  maps : list msm_iommu_map;
  meta_refcount : Z;
  buffer : Z
}.

Definition meta_set_refcount (r : Z) (meta : msm_iommu_meta) : msm_iommu_meta :=
  {| maps := maps meta; meta_refcount := r; buffer := buffer meta |}.

Definition meta_set_maps (l : list msm_iommu_map) (meta : msm_iommu_meta)
  : msm_iommu_meta :=
  {| maps := l; meta_refcount := meta_refcount meta; buffer := buffer meta |}.

Definition map_set_refcount (r : Z) (map : msm_iommu_map) : msm_iommu_map :=
  {| dev := dev map; sgl := sgl map; dir := dir map; nents := nents map;
     map_refcount := r |}.

(** ** Calls that leave the file *)

Inductive alloc_kind := ALLOC_META | ALLOC_MAP.

Inductive event :=
| Ev_kmalloc (k : alloc_kind) (ok : bool)
| Ev_dma_map_sg_attrs (d : device) (nents : Z) (dir : dma_data_direction)
    (attrs : option Z) (ret : Z)
| Ev_dmb
| Ev_dma_unmap_sg (d : device) (sgl : scatterlist) (nents : Z)
    (dir : dma_data_direction)
| Ev_kfree_map (map : msm_iommu_map)
| Ev_kfree_meta (meta : msm_iommu_meta).

(** What the rest of the kernel decides.  An outcome may depend on the
    whole history of calls so far, so that a call that failed can succeed
    when it is repeated.
    - [kmalloc tr k]: whether the next allocation of a record succeeds;
    - [dma_map_sg_attrs tr d sg nents dir attrs]: the scatterlist as the
      mapping primitive leaves it, and its return value (0 on failure);
    - [is_device_dma_coherent d];
    - [DMA_ATTR_NO_DELAYED_UNMAP]: the bit index of the attribute. *)
Class Platform := {
  DMA_ATTR_NO_DELAYED_UNMAP : Z;
  kmalloc : list event → alloc_kind → bool;
  dma_map_sg_attrs :
    list event → device → scatterlist → Z → dma_data_direction → option Z →
    scatterlist * Z;
  is_device_dma_coherent : device → bool
}.

(** Modelled from the spec: [dma_get_attr] is declared in
    linux/dma-attrs.h and not in this file; the spec
    describes the attribute as an input flag of the map call.  [attrs] is
    the flag word behind the pointer, [None] for a NULL pointer; the result
    is the attribute's bit, 0 or 1. *)
Definition dma_get_attr (attr : Z) (attrs : option Z) : Z :=
  match attrs with
  | None => 0
  | Some flags => Z.b2z (Z.testbit flags attr)
  end.

(** ** The cache state *)

(** [iommu_root] is the in-order sequence of the red-black tree; rebalancing
    ([rb_insert_color], the rotations of [rb_erase]) does not change it. *)
Record state := mk_state {
  iommu_root : list msm_iommu_meta;
  trace : list event
}.

Definition empty_state : state := {| iommu_root := []; trace := [] |}.

Definition set_root (r : list msm_iommu_meta) (st : state) : state :=
  {| iommu_root := r; trace := trace st |}.

Definition emit (evs : list event) (st : state) : state :=
  {| iommu_root := iommu_root st; trace := trace st ++ evs |}.

(** ** The static helpers *)

(** The descent of [msm_iommu_meta_add] goes left when the new key is
    smaller and right otherwise, so the new node lands just before the first
    in-order node with a larger key. *)
Fixpoint msm_iommu_meta_add (new_meta : msm_iommu_meta)
    (root : list msm_iommu_meta) : list msm_iommu_meta :=
  match root with
  | [] => [new_meta]
  | meta :: rest =>
      if buffer new_meta <? buffer meta then new_meta :: meta :: rest
      else meta :: msm_iommu_meta_add new_meta rest
  end.

(** The position at which [msm_iommu_meta_add] links the node: the caller
    keeps the pointer it has just inserted. *)
Fixpoint msm_iommu_meta_pos (new_buffer : Z) (root : list msm_iommu_meta)
  : nat :=
  match root with
  | [] => 0%nat
  | meta :: rest =>
      if new_buffer <? buffer meta then 0%nat
      else S (msm_iommu_meta_pos new_buffer rest)
  end.

(** The search of [msm_iommu_meta_lookup] returns the node whose key is
    equal.  Keys in the tree are pairwise distinct (see [cache_inv]); the
    sequence model returns the first such node. *)
Definition msm_iommu_meta_lookup (buf : Z) (root : list msm_iommu_meta)
  : option (nat * msm_iommu_meta) :=
  list_find (λ meta, buffer meta = buf) root.

(** [list_add] links the map right after the list head. *)
Definition msm_iommu_map_add (i : nat) (map : msm_iommu_map)
    (root : list msm_iommu_meta) : list msm_iommu_meta :=
  alter (λ meta, meta_set_maps (map :: maps meta) meta) i root.

Definition msm_iommu_map_lookup (meta : msm_iommu_meta) (d : device)
  : option (nat * msm_iommu_map) :=
  list_find (λ map, dev map = d) (maps meta).

(** [meta] is the node at position [i]. *)
Definition msm_iommu_meta_put (i : nat) (st : state) : state :=
  match iommu_root st !! i with
  | None => st
  | Some meta =>
      let meta' := meta_set_refcount (atomic_dec_return (meta_refcount meta)) meta in
      if negb (meta_refcount meta' =? 0) then
        set_root (<[i := meta']> (iommu_root st)) st
      else
        emit [Ev_kfree_meta meta'] (set_root (delete i (iommu_root st)) st)
  end.

(** ** Retry loops: [while (!f())] with a bound on the number of rounds *)

Section Operations.
Context {P : Platform}.

Fixpoint kmalloc_retry (fuel : nat) (k : alloc_kind) (tr : list event)
  : option (list event) :=
  match fuel with
  | O => None
  | S fuel' =>
      let ok := kmalloc tr k in
      let tr' := tr ++ [Ev_kmalloc k ok] in
      if ok then Some tr' else kmalloc_retry fuel' k tr'
  end.

Fixpoint dma_map_retry (fuel : nat) (d : device) (sg : scatterlist)
    (n : Z) (dr : dma_data_direction) (attrs : option Z) (tr : list event)
  : option (list event * scatterlist) :=
  match fuel with
  | O => None
  | S fuel' =>
      let '(sg', ret) := dma_map_sg_attrs tr d sg n dr attrs in
      let tr' := tr ++ [Ev_dma_map_sg_attrs d n dr attrs ret] in
      if negb (ret =? 0) then Some (tr', sg')
      else dma_map_retry fuel' d sg' n dr attrs tr'
  end.

(** ** msm_dma_map_sg_attrs *)

(** Lines 121-141: the meta is found and pinned, or allocated and linked.
    The result is the state, the position of [meta] and the position and
    value of [map] when the device already has one. *)
Definition map_find_meta (fuel : nat) (d : device) (buf : Z) (not_lazy : Z)
    (st : state) : option (state * nat * option (nat * msm_iommu_map)) :=
  match msm_iommu_meta_lookup buf (iommu_root st) with
  | Some (i, meta) =>
      let root1 :=
        alter (λ m, meta_set_refcount (atomic_inc (meta_refcount m)) m) i
              (iommu_root st) in
      match msm_iommu_map_lookup meta d with
      | Some (j, map) =>
          let map' := map_set_refcount (atomic_inc (map_refcount map)) map in
          let root2 :=
            alter (λ m, meta_set_maps (<[j := map']> (maps m)) m) i root1 in
          Some (set_root root2 st, i, Some (j, map'))
      | None => Some (set_root root1 st, i, None)
      end
  | None =>
      tr ← kmalloc_retry fuel ALLOC_META (trace st);
      let meta := {| buffer := buf; meta_refcount := 2 - not_lazy;
                     maps := [] |} in
      Some ({| iommu_root := msm_iommu_meta_add meta (iommu_root st);
               trace := tr |},
            msm_iommu_meta_pos buf (iommu_root st), None)
  end.

Definition msm_dma_map_sg_attrs (fuel : nat) (d : device) (sg : scatterlist)
    (n : Z) (dr : dma_data_direction) (dma_buf_priv : Z) (attrs : option Z)
    (st : state) : option (state * scatterlist * Z) :=
  let not_lazy := dma_get_attr DMA_ATTR_NO_DELAYED_UNMAP attrs in
  '(st1, i, found) ← map_find_meta fuel d dma_buf_priv not_lazy st;
  match found with
  | Some (_, map) =>
      let sg' := {| page_link := page_link sg; offset := offset sg;
                    sg_length := sg_length sg;
                    dma_address := dma_address (sgl map);
                    dma_length := dma_length (sgl map) |} in
      let st2 := if is_device_dma_coherent d then emit [Ev_dmb] st1 else st1 in
      Some (st2, sg', n)
  | None =>
      tr1 ← kmalloc_retry fuel ALLOC_MAP (trace st1);
      '(tr2, sg') ← dma_map_retry fuel d sg n dr attrs tr1;
      let map := {| dev := d; dir := dr; nents := n;
                    map_refcount := 2 - not_lazy;
                    sgl := {| dma_address := dma_address sg';
                              dma_length := dma_length sg';
                              page_link := page_link sg';
                              offset := offset sg';
                              sg_length := sg_length sg' |} |} in
      Some ({| iommu_root := msm_iommu_map_add i map (iommu_root st1);
               trace := tr2 |}, sg', n)
  end.

End Operations.

(** ** msm_dma_unmap_sg *)

(** The reverse-mapping call and the release of a detached map record. *)
Definition unmap_and_free (map : msm_iommu_map) : list event :=
  [Ev_dma_unmap_sg (dev map) (sgl map) (nents map) (dir map);
   Ev_kfree_map map].

(** The caller's [sgl], [nents] and [dir] are not used by the function. *)
Definition msm_dma_unmap_sg (d : device) (dma_buf_priv : Z) (st : state)
  : state :=
  match msm_iommu_meta_lookup dma_buf_priv (iommu_root st) with
  | None => st
  | Some (i, meta) =>
      match msm_iommu_map_lookup meta d with
      | None => st
      | Some (j, map) =>
          let free_map := atomic_dec_and_test (map_refcount map) in
          let map' :=
            map_set_refcount (atomic_dec_return (map_refcount map)) map in
          let maps' :=
            if free_map then delete j (maps meta)
            else <[j := map']> (maps meta) in
          let st1 := set_root (alter (meta_set_maps maps') i (iommu_root st)) st in
          let st2 := if free_map then emit (unmap_and_free map') st1 else st1 in
          msm_iommu_meta_put i st2
      end
  end.

(** ** msm_dma_unmap_all_for_dev *)

(** The inner [list_for_each_entry_safe] over [meta->maps] (lines 219-228):
    the maps that stay on the list, the side list and [ret]. *)
Fixpoint unmap_all_scan (d : device) (l : list msm_iommu_map)
    (unmap_list : list msm_iommu_map) (ret : Z)
  : list msm_iommu_map * list msm_iommu_map * Z :=
  match l with
  | [] => ([], unmap_list, ret)
  | map :: rest =>
      if negb (dev map =? d) then
        let '(kept, ul, r) := unmap_all_scan d rest unmap_list ret in
        (map :: kept, ul, r)
      else
        let map' :=
          map_set_refcount (atomic_dec_return (map_refcount map)) map in
        if atomic_dec_and_test (map_refcount map) then
          unmap_all_scan d rest (unmap_list ++ [map']) ret
        else
          let '(kept, ul, r) := unmap_all_scan d rest unmap_list (- EINVAL) in
          (map' :: kept, ul, r)
  end.

(** The walk from [rb_first] along [rb_next] (lines 215-231). *)
Fixpoint unmap_all_walk (d : device) (metas : list msm_iommu_meta)
    (unmap_list : list msm_iommu_map) (ret : Z)
  : list msm_iommu_meta * list msm_iommu_map * Z :=
  match metas with
  | [] => ([], unmap_list, ret)
  | meta :: rest =>
      let '(kept, ul, r) := unmap_all_scan d (maps meta) unmap_list ret in
      let '(rest', ul', r') := unmap_all_walk d rest ul r in
      (meta_set_maps kept meta :: rest', ul', r')
  end.

(** The drain of the side list (lines 234-237 and 263-266). *)
Fixpoint drain_unmap_list (unmap_list : list msm_iommu_map) (st : state)
  : state :=
  match unmap_list with
  | [] => st
  | map :: rest => drain_unmap_list rest (emit (unmap_and_free map) st)
  end.

Definition msm_dma_unmap_all_for_dev (d : device) (st : state) : state * Z :=
  let '(root', unmap_list, ret) :=
    unmap_all_walk d (iommu_root st) [] 0 in
  (drain_unmap_list unmap_list (set_root root' st), ret).

(** ** msm_dma_buf_freed *)

(** The loop of lines 254-260: [list_move_tail] takes the map to the side
    list, [list_del_init] takes it off the list and leaves it on its own.
    The result is what stays on [meta->maps] and the side list. *)
Fixpoint buf_freed_scan (l : list msm_iommu_map)
    (unmap_list : list msm_iommu_map)
  : list msm_iommu_map * list msm_iommu_map :=
  match l with
  | [] => ([], unmap_list)
  | map :: rest =>
      let map' :=
        map_set_refcount (atomic_dec_return (map_refcount map)) map in
      if atomic_dec_and_test (map_refcount map) then
        buf_freed_scan rest (unmap_list ++ [map'])
      else
        buf_freed_scan rest unmap_list
  end.

Definition msm_dma_buf_freed (buf : Z) (st : state) : state :=
  match msm_iommu_meta_lookup buf (iommu_root st) with
  | None => st
  | Some (i, meta) =>
      let '(kept, unmap_list) := buf_freed_scan (maps meta) [] in
      let st1 := set_root (alter (meta_set_maps kept) i (iommu_root st)) st in
      let st2 := drain_unmap_list unmap_list st1 in
      msm_iommu_meta_put i st2
  end.

(** ** A platform to run the code on

    Allocation fails on the first try and succeeds on the second; the
    mapping primitive fails once and then places the buffer at an address
    derived from the device.  No device is coherent; the attribute is bit
    3 of the flag word. *)
Definition last_failed (tr : list event) : bool :=
  match last tr with
  | Some (Ev_kmalloc _ false) => true
  | Some (Ev_dma_map_sg_attrs _ _ _ _ 0) => true
  | _ => false
  end.

#[local] Instance sample_platform : Platform := {|
  DMA_ATTR_NO_DELAYED_UNMAP := 3;
  kmalloc tr _ := last_failed tr;
  dma_map_sg_attrs tr d sg n _ _ :=
    if last_failed tr then
      ({| page_link := page_link sg; offset := offset sg;
          sg_length := sg_length sg;
          dma_address := 4096 * d + offset sg;
          dma_length := sg_length sg |}, n)
    else (sg, 0);
  is_device_dma_coherent _ := false
|}.

Definition sample_sg : scatterlist :=
  {| page_link := 7; offset := 16; sg_length := 512;
     dma_address := 0; dma_length := 0 |}.

(** ** The uniqueness invariant and the states the operations can reach *)

Definition root_sorted (root : list msm_iommu_meta) : Prop :=
  StronglySorted Z.lt (buffer <$> root).

Definition maps_unique (meta : msm_iommu_meta) : Prop :=
  NoDup (dev <$> maps meta).

Definition cache_inv (st : state) : Prop :=
  root_sorted (iommu_root st) ∧ Forall maps_unique (iommu_root st).


Inductive step `{Platform} : state → state → Prop :=
| step_map fuel d sg n dr buf attrs st st' sg' r :
    msm_dma_map_sg_attrs fuel d sg n dr buf attrs st = Some (st', sg', r) →
    step st st'
| step_unmap d buf st :
    step st (msm_dma_unmap_sg d buf st)
| step_unmap_all d st :
    step st (msm_dma_unmap_all_for_dev d st).1
| step_buf_freed buf st :
    step st (msm_dma_buf_freed buf st).

Inductive reachable `{Platform} : state → Prop :=
| reachable_init : reachable empty_state
| reachable_step st st' : reachable st → step st st' → reachable st'.

(** ** The sweeps, as the specification words them *)

Definition map_put (map : msm_iommu_map) : msm_iommu_map :=
  map_set_refcount (atomic_dec_return (map_refcount map)) map.

(** What a device sweep leaves on a list: maps of other devices untouched,
    maps of the device that did not reach zero, decremented. *)
Definition sweep_kept (d : device) (l : list msm_iommu_map)
  : list msm_iommu_map :=
  omap (λ map, if decide (dev map = d)
               then if atomic_dec_and_test (map_refcount map) then None
                    else Some (map_put map)
               else Some map) l.

(** What a device sweep takes to the side list. *)
Definition sweep_freed (d : device) (l : list msm_iommu_map)
  : list msm_iommu_map :=
  map_put <$>
    filter (λ map, dev map = d ∧ atomic_dec_and_test (map_refcount map)) l.

(** What a buffer drain takes to the side list. *)
Definition drain_freed (l : list msm_iommu_map) : list msm_iommu_map :=
  map_put <$> filter (λ map, atomic_dec_and_test (map_refcount map)) l.

(** A map of device [d] that one decrement does not bring to zero. *)
Definition survives_sweep (d : device) (st : state) : Prop :=
  ∃ meta map, meta ∈ iommu_root st ∧ map ∈ maps meta ∧ dev map = d ∧
              atomic_dec_and_test (map_refcount map) = false.

(** ** The records a map call leaves behind, for the statements below *)

(** The map record of lines 152-166, from the scatterlist as the mapping
    primitive left it. *)
Definition created_map (d : device) (dr : dma_data_direction) (n seed : Z)
    (sg' : scatterlist) : msm_iommu_map :=
  {| dev := d; dir := dr; nents := n; map_refcount := seed;
     sgl := {| dma_address := dma_address sg'; dma_length := dma_length sg';
               page_link := page_link sg'; offset := offset sg';
               sg_length := sg_length sg' |} |}.

(** The meta record after a map call found it and the device's map. *)
Definition reused_meta (meta : msm_iommu_meta) (j : nat)
    (map : msm_iommu_map) : msm_iommu_meta :=
  {| maps := <[j := map_set_refcount (atomic_inc (map_refcount map)) map]>
               (maps meta);
     meta_refcount := atomic_inc (meta_refcount meta);
     buffer := buffer meta |}.

(** The meta record after a map call found it without a map of the
    device. *)
Definition extended_meta (meta : msm_iommu_meta) (map : msm_iommu_map)
  : msm_iommu_meta :=
  {| maps := map :: maps meta;
     meta_refcount := atomic_inc (meta_refcount meta);
     buffer := buffer meta |}.

(** The scatterlist handed back on reuse. *)
Definition reused_sg (sg : scatterlist) (map : msm_iommu_map) : scatterlist :=
  {| page_link := page_link sg; offset := offset sg;
     sg_length := sg_length sg;
     dma_address := dma_address (sgl map);
     dma_length := dma_length (sgl map) |}.

Definition barrier `{Platform} (d : device) : list event :=
  if is_device_dma_coherent d then [Ev_dmb] else [].

(** Every return of a map call is one of the three cases. *)
Inductive map_case `{Platform} fuel d sg n dr buf attrs st
  : state → scatterlist → Prop :=
| case_hit i meta j map :
    msm_iommu_meta_lookup buf (iommu_root st) = Some (i, meta) →
    msm_iommu_map_lookup meta d = Some (j, map) →
    map_case fuel d sg n dr buf attrs st
      (emit (barrier d)
            (set_root (<[i := reused_meta meta j map]> (iommu_root st)) st))
      (reused_sg sg map)
| case_known i meta tr1 tr2 sg' :
    msm_iommu_meta_lookup buf (iommu_root st) = Some (i, meta) →
    msm_iommu_map_lookup meta d = None →
    kmalloc_retry fuel ALLOC_MAP (trace st) = Some tr1 →
    dma_map_retry fuel d sg n dr attrs tr1 = Some (tr2, sg') →
    map_case fuel d sg n dr buf attrs st
      {| iommu_root :=
           <[i := extended_meta meta
                    (created_map d dr n
                       (2 - dma_get_attr DMA_ATTR_NO_DELAYED_UNMAP attrs)
                       sg')]> (iommu_root st);
         trace := tr2 |} sg'
| case_fresh tr0 tr1 tr2 sg' :
    msm_iommu_meta_lookup buf (iommu_root st) = None →
    kmalloc_retry fuel ALLOC_META (trace st) = Some tr0 →
    kmalloc_retry fuel ALLOC_MAP tr0 = Some tr1 →
    dma_map_retry fuel d sg n dr attrs tr1 = Some (tr2, sg') →
    map_case fuel d sg n dr buf attrs st
      {| iommu_root :=
           msm_iommu_meta_add
             {| maps := [created_map d dr n
                           (2 - dma_get_attr DMA_ATTR_NO_DELAYED_UNMAP attrs)
                           sg'];
                meta_refcount :=
                  2 - dma_get_attr DMA_ATTR_NO_DELAYED_UNMAP attrs;
                buffer := buf |} (iommu_root st);
         trace := tr2 |} sg'.

(** The meta record after one reference is dropped, with the maps that
    stay on its list. *)
Definition released_meta (meta : msm_iommu_meta) (l : list msm_iommu_map)
  : msm_iommu_meta :=
  {| maps := l; meta_refcount := atomic_dec_return (meta_refcount meta);
     buffer := buffer meta |}.

(** The state after [msm_iommu_meta_put] on the node at [i], whose record
    after the decrement is [meta']. *)
Definition put_result (i : nat) (meta' : msm_iommu_meta)
    (root : list msm_iommu_meta) (tr : list event) : state :=
  if decide (meta_refcount meta' = 0) then
    {| iommu_root := delete i root; trace := tr ++ [Ev_kfree_meta meta'] |}
  else
    {| iommu_root := <[i := meta']> root; trace := tr |}.

Definition sweep_fails (d : device) (l : list msm_iommu_map) : Prop :=
  Exists (λ map, dev map = d ∧ atomic_dec_and_test (map_refcount map) = false)
         l.

(** No active mapping of buffer [buf] for device [d]: the buffer has no
    meta, or its meta has no map of the device. *)
Definition no_active_mapping (d : device) (buf : Z) (st : state) : Prop :=
  msm_iommu_meta_lookup buf (iommu_root st) = None ∨
  ∃ i meta, msm_iommu_meta_lookup buf (iommu_root st) = Some (i, meta) ∧
            msm_iommu_map_lookup meta d = None.

(** ** States of the sample platform

    [st_lazy]: device 10 mapped buffer 100 once, attribute clear.
    [st_eager]: the same call with the attribute set. *)
Definition sample_sgl : scatterlist :=
  {| page_link := 7; offset := 16; sg_length := 512;
     dma_address := 40976; dma_length := 512 |}.

Definition sample_map (refs : Z) : msm_iommu_map :=
  {| dev := 10; sgl := sample_sgl; dir := DMA_TO_DEVICE; nents := 1;
     map_refcount := refs |}.

Definition sample_trace (attrs : option Z) : list event :=
  [Ev_kmalloc ALLOC_META false; Ev_kmalloc ALLOC_META true;
   Ev_kmalloc ALLOC_MAP false; Ev_kmalloc ALLOC_MAP true;
   Ev_dma_map_sg_attrs 10 1 DMA_TO_DEVICE attrs 0;
   Ev_dma_map_sg_attrs 10 1 DMA_TO_DEVICE attrs 1].

Definition st_lazy : state :=
  {| iommu_root := [{| maps := [sample_map 2]; meta_refcount := 2;
                       buffer := 100 |}];
     trace := sample_trace None |}.

Definition st_eager : state :=
  {| iommu_root := [{| maps := [sample_map 1]; meta_refcount := 1;
                       buffer := 100 |}];
     trace := sample_trace (Some 8) |}.

(** ** The claims that do not hold, as they are worded *)

(** The seed as worded: 2 when the attribute is set, 1 when it is not. *)
Definition claimed_seed (not_lazy : Z) : Z :=
  if not_lazy =? 0 then 1 else 2.

(** After the creating call, the meta of [buf] and its only map carry the
    seed as worded. *)
Definition seeded_as_claimed `{Platform} (attrs : option Z) (buf : Z)
    (st' : state) : Prop :=
  ∃ i meta map,
    msm_iommu_meta_lookup buf (iommu_root st') = Some (i, meta) ∧
    maps meta = [map] ∧
    meta_refcount meta =
      claimed_seed (dma_get_attr DMA_ATTR_NO_DELAYED_UNMAP attrs) ∧
    map_refcount map =
      claimed_seed (dma_get_attr DMA_ATTR_NO_DELAYED_UNMAP attrs).

(** The scenario as worded: two map calls on an empty cache, then the
    first unmap leaves no map of [A] for [X] and the second changes
    nothing. *)
Definition scenario_as_claimed `{Platform} (fuel : nat) (A : device) (X : Z)
    (sg : scatterlist) (n : Z) (dr : dma_data_direction) (attrs : option Z)
  : Prop :=
  ∃ st1 sg1 st2 sg2,
    msm_dma_map_sg_attrs fuel A sg n dr X attrs empty_state
      = Some (st1, sg1, n) ∧
    msm_dma_map_sg_attrs fuel A sg n dr X attrs st1 = Some (st2, sg2, n) ∧
    dma_address sg2 = dma_address sg1 ∧
    no_active_mapping A X (msm_dma_unmap_sg A X st2) ∧
    msm_dma_unmap_sg A X (msm_dma_unmap_sg A X st2)
      = msm_dma_unmap_sg A X st2.

(** The drain as worded: after the call the buffer has no meta in the
    tree, and its record was freed last. *)
Definition drained_as_claimed (buf : Z) (st : state) : Prop :=
  msm_iommu_meta_lookup buf (iommu_root (msm_dma_buf_freed buf st)) = None ∧
  ∃ meta', last (trace (msm_dma_buf_freed buf st)) = Some (Ev_kfree_meta meta').

(** The events a call appended to the trace. *)
Definition new_events (before after : state) : list event :=
  drop (length (trace before)) (trace after).

(** The forced unmap as worded: a map of the freed buffer whose count is
    not zero after the decrement is passed to dma_unmap_sg and freed. *)
Definition forced_unmap_as_claimed (buf : Z) (st : state) : Prop :=
  ∀ i meta map,
    msm_iommu_meta_lookup buf (iommu_root st) = Some (i, meta) →
    map ∈ maps meta →
    atomic_dec_and_test (map_refcount map) = false →
    Ev_dma_unmap_sg (dev map) (sgl map) (nents map) (dir map)
      ∈ new_events st (msm_dma_buf_freed buf st) ∧
    Ev_kfree_map (map_put map) ∈ new_events st (msm_dma_buf_freed buf st).

(** The discipline as worded, for the device sweep: a meta on which the
    sweep found a map of the device has its count decremented, and is gone
    from the tree when that reaches zero. *)
Definition sweep_puts_meta_as_claimed (d : device) (st : state) : Prop :=
  ∀ i meta map,
    iommu_root st !! i = Some meta → map ∈ maps meta → dev map = d →
    let root' := iommu_root (msm_dma_unmap_all_for_dev d st).1 in
    if decide (atomic_dec_return (meta_refcount meta) = 0)
    then buffer meta ∉ buffer <$> root'
    else ∃ meta', meta' ∈ root' ∧ buffer meta' = buffer meta ∧
                  meta_refcount meta' = atomic_dec_return (meta_refcount meta).

(** What one [msm_iommu_meta_put] on the node at [i], holding [meta], does
    between [st] and [st']: the count goes down by one decrement; the node
    is erased and its record freed when that gives 0, and otherwise stays
    at [i] with the new count and no record of a meta is freed. *)
Definition meta_put_discipline (i : nat) (meta : msm_iommu_meta)
    (st st' : state) : Prop :=
  let r := atomic_dec_return (meta_refcount meta) in
  (r = 0 →
   iommu_root st' = delete i (iommu_root st) ∧
   ∃ meta', last (trace st') = Some (Ev_kfree_meta meta') ∧
            buffer meta' = buffer meta ∧ meta_refcount meta' = 0) ∧
  (r ≠ 0 →
   (∃ meta', iommu_root st' = <[i := meta']> (iommu_root st) ∧
             buffer meta' = buffer meta ∧ meta_refcount meta' = r) ∧
   ∀ m, Ev_kfree_meta m ∉ new_events st st').

(** ** Further notions used in the statements below *)

(** Keys in tree order, equal keys allowed: what [msm_iommu_meta_add]
    itself keeps, without the caller's prior lookup. *)
Definition root_ordered (root : list msm_iommu_meta) : Prop :=
  StronglySorted Z.le (buffer <$> root).

(** [k] map calls in a row for the same pair, each with the same
    arguments. *)
Fixpoint map_times `{Platform} (fuel k : nat) (d : device) (sg : scatterlist)
    (n : Z) (dr : dma_data_direction) (buf : Z) (attrs : option Z)
    (st : state) : option state :=
  match k with
  | O => Some st
  | S k' =>
      '(st1, _, _) ← msm_dma_map_sg_attrs fuel d sg n dr buf attrs st;
      map_times fuel k' d sg n dr buf attrs st1
  end.

(** The meta at a hit with [k] added to the count of the meta and to the
    count of the map at [j]. *)
Definition meta_bump (k : Z) (meta : msm_iommu_meta) (j : nat)
    (map : msm_iommu_map) : msm_iommu_meta :=
  {| maps := <[j := map_set_refcount (map_refcount map + k) map]> (maps meta);
     meta_refcount := meta_refcount meta + k;
     buffer := buffer meta |}.

(** Calls that release a map: the reverse mapping and the kfree of a map
    record. *)
Definition is_release (e : event) : bool :=
  match e with
  | Ev_dma_unmap_sg _ _ _ _ | Ev_kfree_map _ => true
  | _ => false
  end.

(** A history in which every dma_unmap_sg is followed at once by the kfree
    of the same map record, whose count is 0, and no map record is freed
    in any other way. *)
Inductive paired : list event → Prop :=
| paired_nil : paired []
| paired_release map tr :
    map_refcount map = 0 → paired tr →
    paired (Ev_dma_unmap_sg (dev map) (sgl map) (nents map) (dir map) ::
            Ev_kfree_map map :: tr)
| paired_other e tr :
    is_release e = false → paired tr → paired (e :: tr).

(** An allocation that returned a record, or a call of dma_map_sg_attrs
    that returned nonzero. *)
Definition is_success (e : event) : bool :=
  match e with
  | Ev_kmalloc _ ok => ok
  | Ev_dma_map_sg_attrs _ _ _ _ ret => negb (ret =? 0)
  | _ => false
  end.

(** No map of device [d] is linked anywhere in the tree. *)
Definition device_absent (d : device) (st : state) : Prop :=
  ∀ meta map, meta ∈ iommu_root st → map ∈ maps meta → dev map ≠ d.

(** ** Map calls that overlap

    The source takes and drops a lock around each search and each insert
    on its own: [rb_tree_lock] for the search of lines 61-73 and again for
    the insert of lines 41-52, [meta->lock] for the search of lines 124-128
    and again for the insert of lines 81-83.  A map call is therefore cut
    here into the segments another call can run between, each segment
    running as the source has it:
    - line 121: the search of the tree;
    - lines 123-128, when the meta was found: pin it, search its list;
    - lines 130-140, when it was not: allocate the meta and link it;
    - lines 143-171: hand back the cached mapping, or create and link the
      map.
    A call keeps its [meta] pointer from one segment to the next; as
    pointers are positions here, a node another call links in front of it
    moves the position by one. *)

Record map_call := mk_map_call {
  mc_fuel : nat;
  mc_dev : device;
  mc_sg : scatterlist;
  mc_nents : Z;
  mc_dir : dma_data_direction;
  mc_buf : Z;
  mc_attrs : option Z
}.

Inductive map_pc :=
| pc_lookup
| pc_found (i : nat)
| pc_create
| pc_finish (i : nat) (found : option (nat * msm_iommu_map))
| pc_done (sg' : scatterlist) (ret : Z).

(** One segment of a map call: where the call stands afterwards, the new
    state, and the position at which the segment linked a node into the
    tree, if it did. *)
Definition map_segment `{Platform} (c : map_call) (pc : map_pc) (st : state)
  : option (map_pc * state * option nat) :=
  let not_lazy := dma_get_attr DMA_ATTR_NO_DELAYED_UNMAP (mc_attrs c) in
  match pc with
  | pc_lookup =>
      match msm_iommu_meta_lookup (mc_buf c) (iommu_root st) with
      | Some (i, _) => Some (pc_found i, st, None)
      | None => Some (pc_create, st, None)
      end
  | pc_found i =>
      meta ← iommu_root st !! i;
      let root1 :=
        alter (λ m, meta_set_refcount (atomic_inc (meta_refcount m)) m) i
              (iommu_root st) in
      match msm_iommu_map_lookup meta (mc_dev c) with
      | Some (j, map) =>
          let map' := map_set_refcount (atomic_inc (map_refcount map)) map in
          let root2 :=
            alter (λ m, meta_set_maps (<[j := map']> (maps m)) m) i root1 in
          Some (pc_finish i (Some (j, map')), set_root root2 st, None)
      | None => Some (pc_finish i None, set_root root1 st, None)
      end
  | pc_create =>
      tr ← kmalloc_retry (mc_fuel c) ALLOC_META (trace st);
      let meta := {| buffer := mc_buf c; meta_refcount := 2 - not_lazy;
                     maps := [] |} in
      let p := msm_iommu_meta_pos (mc_buf c) (iommu_root st) in
      Some (pc_finish p None,
            {| iommu_root := msm_iommu_meta_add meta (iommu_root st);
               trace := tr |}, Some p)
  | pc_finish i (Some (_, map)) =>
      let sg' := {| page_link := page_link (mc_sg c);
                    offset := offset (mc_sg c);
                    sg_length := sg_length (mc_sg c);
                    dma_address := dma_address (sgl map);
                    dma_length := dma_length (sgl map) |} in
      let st2 :=
        if is_device_dma_coherent (mc_dev c) then emit [Ev_dmb] st else st in
      Some (pc_done sg' (mc_nents c), st2, None)
  | pc_finish i None =>
      tr1 ← kmalloc_retry (mc_fuel c) ALLOC_MAP (trace st);
      '(tr2, sg') ← dma_map_retry (mc_fuel c) (mc_dev c) (mc_sg c)
                                  (mc_nents c) (mc_dir c) (mc_attrs c) tr1;
      let map := {| dev := mc_dev c; dir := mc_dir c; nents := mc_nents c;
                    map_refcount := 2 - not_lazy;
                    sgl := {| dma_address := dma_address sg';
                              dma_length := dma_length sg';
                              page_link := page_link sg';
                              offset := offset sg';
                              sg_length := sg_length sg' |} |} in
      Some (pc_done sg' (mc_nents c),
            {| iommu_root := msm_iommu_map_add i map (iommu_root st);
               trace := tr2 |}, None)
  | pc_done _ _ => None
  end.

(** A call that runs its segments with no other call in between. *)
Definition map_run_alone `{Platform} (c : map_call) (st : state)
  : option (state * scatterlist * Z) :=
  '(pc1, st1, _) ← map_segment c pc_lookup st;
  '(pc2, st2, _) ← map_segment c pc1 st1;
  '(pc3, st3, _) ← map_segment c pc2 st2;
  match pc3 with
  | pc_done sg' ret => Some (st3, sg', ret)
  | _ => None
  end.

(** The pointer another call holds, after a node was linked at [ins]. *)
Definition shift_pc (ins : option nat) (pc : map_pc) : map_pc :=
  match ins with
  | None => pc
  | Some p =>
      match pc with
      | pc_found i => pc_found (if decide (p ≤ i)%nat then S i else i)
      | pc_finish i found =>
          pc_finish (if decide (p ≤ i)%nat then S i else i) found
      | _ => pc
      end
  end.

(** The states map calls reach when they overlap: a pool of calls under
    way, any of which runs its next segment. *)
Inductive overlapped `{Platform} : list (map_call * map_pc) → state → Prop :=
| overlapped_init : overlapped [] empty_state
| overlapped_call pool st c :
    overlapped pool st → overlapped (pool ++ [(c, pc_lookup)]) st
| overlapped_segment pool st k c pc pc' st' ins :
    overlapped pool st →
    pool !! k = Some (c, pc) →
    map_segment c pc st = Some (pc', st', ins) →
    overlapped (<[k := (c, pc')]> (prod_map id (shift_pc ins) <$> pool)) st'.



(** * Proofs *)

(** ** Machine arithmetic *)

Lemma wrap_int_range z : INT_MIN ≤ wrap_int z ≤ INT_MAX.
Proof.
  unfold wrap_int, INT_MIN, INT_MAX.
  pose proof (Z.mod_pos_bound (z + 2 ^ 31) (2 ^ 32)). lia.
Qed.

Lemma wrap_int_id z : INT_MIN ≤ z ≤ INT_MAX → wrap_int z = z.
Proof.
  unfold wrap_int, INT_MIN, INT_MAX. intros Hz.
  rewrite Z.mod_small by lia. lia.
Qed.

Lemma atomic_inc_succ v : INT_MIN ≤ v < INT_MAX → atomic_inc v = v + 1.
Proof. intros Hv. apply wrap_int_id. lia. Qed.

Lemma atomic_dec_return_pred v :
  INT_MIN < v ≤ INT_MAX → atomic_dec_return v = v - 1.
Proof. intros Hv. apply wrap_int_id. lia. Qed.

Lemma dma_get_attr_bit attr attrs :
  dma_get_attr attr attrs = 0 ∨ dma_get_attr attr attrs = 1.
Proof.
  destruct attrs as [flags|]; simpl; [|by left].
  destruct (Z.testbit flags attr); simpl; auto.
Qed.

(** ** Positions in the tree *)

Lemma meta_lookup_Some buf root i meta :
  msm_iommu_meta_lookup buf root = Some (i, meta) →
  root !! i = Some meta ∧ buffer meta = buf.
Proof.
  unfold msm_iommu_meta_lookup. intros (? & ? & _)%list_find_Some. done.
Qed.

Lemma map_lookup_Some meta d j map :
  msm_iommu_map_lookup meta d = Some (j, map) →
  maps meta !! j = Some map ∧ dev map = d.
Proof.
  unfold msm_iommu_map_lookup. intros (? & ? & _)%list_find_Some. done.
Qed.

Lemma meta_add_lookup meta root :
  msm_iommu_meta_lookup (buffer meta) root = None →
  msm_iommu_meta_lookup (buffer meta) (msm_iommu_meta_add meta root) =
  Some (msm_iommu_meta_pos (buffer meta) root, meta).
Proof.
  unfold msm_iommu_meta_lookup.
  induction root as [|m root IH]; simpl; intros Hnone.
  - by rewrite decide_True.
  - destruct (decide (buffer m = buffer meta)) as [|Hne]; [done|].
    destruct (buffer meta <? buffer m); simpl.
    + by rewrite decide_True.
    + rewrite decide_False by done.
      destruct (list_find _ root) as [?|] eqn:E; [done|].
      by rewrite IH.
Qed.

Lemma meta_add_delete meta root :
  delete (msm_iommu_meta_pos (buffer meta) root)
         (msm_iommu_meta_add meta root) = root.
Proof.
  induction root as [|m root IH]; simpl; [done|].
  destruct (buffer meta <? buffer m); simpl; [done|]. by rewrite IH.
Qed.

Lemma meta_add_alter f meta root :
  buffer (f meta) = buffer meta →
  alter f (msm_iommu_meta_pos (buffer meta) root)
        (msm_iommu_meta_add meta root)
  = msm_iommu_meta_add (f meta) root.
Proof.
  intros Hf. induction root as [|m root IH]; simpl; [done|].
  rewrite Hf. destruct (buffer meta <? buffer m); simpl; [done|].
  f_equal. exact IH.
Qed.

Lemma alter_at {A} (f : A → A) (l : list A) i x :
  l !! i = Some x → alter f i l = <[i := f x]> l.
Proof.
  revert i. induction l as [|y l IH]; intros [|i] Hi; simplify_eq/=; [done|].
  f_equal. by apply IH.
Qed.

Lemma insert_at_pos meta meta' root :
  buffer meta' = buffer meta →
  <[msm_iommu_meta_pos (buffer meta) root := meta']>
    (msm_iommu_meta_add meta root)
  = msm_iommu_meta_add meta' root.
Proof.
  intros Hb. rewrite list_insert_alter.
  rewrite (meta_add_alter (λ _, meta')) by done. done.
Qed.

(** ** What a map call does, case by case *)

Section MapCases.
Context `{P : Platform}.
Implicit Types (st : state) (sg : scatterlist) (d : device).

Lemma emit_barrier d st :
  (if is_device_dma_coherent d then emit [Ev_dmb] st else st)
  = emit (barrier d) st.
Proof.
  unfold barrier. destruct (is_device_dma_coherent d); [done|].
  destruct st; unfold emit; simpl. by rewrite app_nil_r.
Qed.

(** The cached map is reused. *)
Lemma map_hit fuel d sg n dr buf attrs st i meta j map :
  msm_iommu_meta_lookup buf (iommu_root st) = Some (i, meta) →
  msm_iommu_map_lookup meta d = Some (j, map) →
  msm_dma_map_sg_attrs fuel d sg n dr buf attrs st =
  Some (emit (barrier d)
             (set_root (<[i := reused_meta meta j map]> (iommu_root st)) st),
        reused_sg sg map, n).
Proof.
  intros Hmeta Hmap. unfold msm_dma_map_sg_attrs, map_find_meta.
  rewrite Hmeta, Hmap. simpl. rewrite emit_barrier.
  apply meta_lookup_Some in Hmeta as [Hi _].
  rewrite list_alter_alter_eq. by rewrite (alter_at _ _ _ _ Hi).
Qed.

(** The meta is known, the device is new to it. *)
Lemma map_miss_known fuel d sg n dr buf attrs st i meta tr1 tr2 sg' :
  msm_iommu_meta_lookup buf (iommu_root st) = Some (i, meta) →
  msm_iommu_map_lookup meta d = None →
  kmalloc_retry fuel ALLOC_MAP (trace st) = Some tr1 →
  dma_map_retry fuel d sg n dr attrs tr1 = Some (tr2, sg') →
  msm_dma_map_sg_attrs fuel d sg n dr buf attrs st =
  Some ({| iommu_root :=
             <[i := extended_meta meta
                      (created_map d dr n
                         (2 - dma_get_attr DMA_ATTR_NO_DELAYED_UNMAP attrs)
                         sg')]> (iommu_root st);
           trace := tr2 |}, sg', n).
Proof.
  intros Hmeta Hmap Hk Hm. unfold msm_dma_map_sg_attrs, map_find_meta.
  rewrite Hmeta, Hmap. simpl. rewrite Hk. simpl. rewrite Hm. simpl.
  apply meta_lookup_Some in Hmeta as [Hi _].
  unfold msm_iommu_map_add.
  rewrite list_alter_alter_eq. by rewrite (alter_at _ _ _ _ Hi).
Qed.

(** The buffer is new. *)
Lemma map_miss_fresh fuel d sg n dr buf attrs st tr0 tr1 tr2 sg' :
  msm_iommu_meta_lookup buf (iommu_root st) = None →
  kmalloc_retry fuel ALLOC_META (trace st) = Some tr0 →
  kmalloc_retry fuel ALLOC_MAP tr0 = Some tr1 →
  dma_map_retry fuel d sg n dr attrs tr1 = Some (tr2, sg') →
  let seed := 2 - dma_get_attr DMA_ATTR_NO_DELAYED_UNMAP attrs in
  msm_dma_map_sg_attrs fuel d sg n dr buf attrs st =
  Some ({| iommu_root :=
             msm_iommu_meta_add
               {| maps := [created_map d dr n seed sg'];
                  meta_refcount := seed; buffer := buf |} (iommu_root st);
           trace := tr2 |}, sg', n).
Proof.
  intros Hmeta Hk0 Hk Hm seed. unfold msm_dma_map_sg_attrs, map_find_meta.
  rewrite Hmeta. simpl. rewrite Hk0. simpl. rewrite Hk. simpl.
  rewrite Hm. simpl. unfold msm_iommu_map_add.
  set (meta := {| maps := []; meta_refcount := _; buffer := buf |}).
  change buf with (buffer meta) at 1.
  by rewrite meta_add_alter.
Qed.

Lemma map_inv fuel d sg n dr buf attrs st st' sg' r :
  msm_dma_map_sg_attrs fuel d sg n dr buf attrs st = Some (st', sg', r) →
  r = n ∧ map_case fuel d sg n dr buf attrs st st' sg'.
Proof.
  intros Hrun.
  destruct (msm_iommu_meta_lookup buf (iommu_root st)) as [[i meta]|] eqn:Hmeta.
  - destruct (msm_iommu_map_lookup meta d) as [[j map]|] eqn:Hmap.
    + rewrite (map_hit _ _ _ _ _ _ _ _ _ _ _ _ Hmeta Hmap) in Hrun.
      simplify_eq. split; [done|]. by econstructor.
    + destruct (kmalloc_retry fuel ALLOC_MAP (trace st)) as [tr1|] eqn:Hk;
        [|by (unfold msm_dma_map_sg_attrs, map_find_meta in Hrun;
              rewrite Hmeta, Hmap in Hrun; simpl in Hrun;
              rewrite Hk in Hrun)].
      destruct (dma_map_retry fuel d sg n dr attrs tr1) as [[tr2 sg2]|] eqn:Hm;
        [|by (unfold msm_dma_map_sg_attrs, map_find_meta in Hrun;
              rewrite Hmeta, Hmap in Hrun; simpl in Hrun;
              rewrite Hk in Hrun; simpl in Hrun; rewrite Hm in Hrun)].
      rewrite (map_miss_known _ _ _ _ _ _ _ _ _ _ _ _ _ Hmeta Hmap Hk Hm)
        in Hrun.
      simplify_eq. split; [done|]. by econstructor.
  - destruct (kmalloc_retry fuel ALLOC_META (trace st)) as [tr0|] eqn:Hk0;
      [|by (unfold msm_dma_map_sg_attrs, map_find_meta in Hrun;
            rewrite Hmeta in Hrun; simpl in Hrun; rewrite Hk0 in Hrun)].
    destruct (kmalloc_retry fuel ALLOC_MAP tr0) as [tr1|] eqn:Hk;
      [|by (unfold msm_dma_map_sg_attrs, map_find_meta in Hrun;
            rewrite Hmeta in Hrun; simpl in Hrun; rewrite Hk0 in Hrun;
            simpl in Hrun; rewrite Hk in Hrun)].
    destruct (dma_map_retry fuel d sg n dr attrs tr1) as [[tr2 sg2]|] eqn:Hm;
      [|by (unfold msm_dma_map_sg_attrs, map_find_meta in Hrun;
            rewrite Hmeta in Hrun; simpl in Hrun; rewrite Hk0 in Hrun;
            simpl in Hrun; rewrite Hk in Hrun; simpl in Hrun;
            rewrite Hm in Hrun)].
    rewrite (map_miss_fresh _ _ _ _ _ _ _ _ _ _ _ _ Hmeta Hk0 Hk Hm) in Hrun.
    simplify_eq. split; [done|]. by econstructor.
Qed.

End MapCases.

(** ** The bound on the retry loops

    A loop that leaves within [fuel] rounds leaves the same way within any
    larger bound, so a map call that returns keeps its result when the
    bound grows; a call whose three loops succeed at once returns with any
    positive bound. *)

Section Fuel.
Context `{P : Platform}.

Lemma kmalloc_retry_mono fuel fuel' k tr tr' :
  kmalloc_retry fuel k tr = Some tr' → (fuel ≤ fuel')%nat →
  kmalloc_retry fuel' k tr = Some tr'.
Proof.
  revert fuel' tr. induction fuel as [|fuel IH]; intros fuel' tr Hrun Hle;
    [done|].
  destruct fuel' as [|fuel']; [lia|]. simpl in *.
  destruct (kmalloc tr k); [done|]. apply IH; [done|lia].
Qed.

Lemma dma_map_retry_mono fuel fuel' d sg n dr attrs tr res :
  dma_map_retry fuel d sg n dr attrs tr = Some res → (fuel ≤ fuel')%nat →
  dma_map_retry fuel' d sg n dr attrs tr = Some res.
Proof.
  revert fuel' sg tr.
  induction fuel as [|fuel IH]; intros fuel' sg tr Hrun Hle; [done|].
  destruct fuel' as [|fuel']; [lia|]. simpl in *.
  destruct (dma_map_sg_attrs tr d sg n dr attrs) as [sg' ret].
  destruct (negb (ret =? 0)); [done|]. apply IH; [done|lia].
Qed.

Lemma kmalloc_retry_first fuel k tr :
  kmalloc tr k = true →
  kmalloc_retry (S fuel) k tr = Some (tr ++ [Ev_kmalloc k true]).
Proof. intros Hok. simpl. by rewrite Hok. Qed.

Lemma dma_map_retry_first fuel d sg n dr attrs tr sg' ret :
  dma_map_sg_attrs tr d sg n dr attrs = (sg', ret) → ret ≠ 0 →
  dma_map_retry (S fuel) d sg n dr attrs tr =
  Some (tr ++ [Ev_dma_map_sg_attrs d n dr attrs ret], sg').
Proof.
  intros Hcall Hret. simpl. rewrite Hcall.
  by rewrite (proj2 (Z.eqb_neq _ _) Hret).
Qed.

Lemma map_fuel_mono fuel fuel' d sg n dr buf attrs st res :
  msm_dma_map_sg_attrs fuel d sg n dr buf attrs st = Some res →
  (fuel ≤ fuel')%nat →
  msm_dma_map_sg_attrs fuel' d sg n dr buf attrs st = Some res.
Proof.
  destruct res as [[st' sg'] r]. intros [-> Hcase]%map_inv Hle.
  destruct Hcase as [i meta j map Hmeta Hmap
                    |i meta tr1 tr2 sg2 Hmeta Hmap Hk Hm
                    |tr0 tr1 tr2 sg2 Hmeta Hk0 Hk Hm].
  - by apply map_hit.
  - eapply map_miss_known; eauto using kmalloc_retry_mono, dma_map_retry_mono.
  - eapply map_miss_fresh; eauto using kmalloc_retry_mono, dma_map_retry_mono.
Qed.

End Fuel.

(** ** Dropping references *)

Lemma delete_insert_same {A} (l : list A) i x :
  delete i (<[i := x]> l) = delete i l.
Proof.
  revert i. induction l as [|y l IH]; intros [|i]; simpl; [done..|].
  f_equal. apply IH.
Qed.

Lemma meta_put_at i meta st :
  iommu_root st !! i = Some meta →
  msm_iommu_meta_put i st =
  put_result i (released_meta meta (maps meta)) (iommu_root st) (trace st).
Proof.
  intros Hi. unfold msm_iommu_meta_put, put_result. rewrite Hi. simpl.
  destruct (Z.eqb_spec (atomic_dec_return (meta_refcount meta)) 0) as [E|E];
    simpl.
  - by rewrite decide_True.
  - by rewrite decide_False.
Qed.

Lemma emit_emit a b st : emit b (emit a st) = emit (a ++ b) st.
Proof. unfold emit; simpl. by rewrite <-(assoc_L (++)). Qed.

Lemma emit_nil st : emit [] st = st.
Proof. destruct st. unfold emit; simpl. by rewrite app_nil_r. Qed.

Lemma drain_unmap_list_emit l st :
  drain_unmap_list l st = emit (l ≫= unmap_and_free) st.
Proof.
  revert st. induction l as [|map l IH]; intros st; simpl.
  - by rewrite emit_nil.
  - by rewrite IH, emit_emit.
Qed.

Lemma unmap_sg_no_meta d buf st :
  msm_iommu_meta_lookup buf (iommu_root st) = None →
  msm_dma_unmap_sg d buf st = st.
Proof. intros Hnone. unfold msm_dma_unmap_sg. by rewrite Hnone. Qed.

Lemma unmap_sg_no_map d buf st i meta :
  msm_iommu_meta_lookup buf (iommu_root st) = Some (i, meta) →
  msm_iommu_map_lookup meta d = None →
  msm_dma_unmap_sg d buf st = st.
Proof.
  intros Hmeta Hmap. unfold msm_dma_unmap_sg. by rewrite Hmeta, Hmap.
Qed.

(** An unmap call that finds the map. *)
Lemma unmap_sg_found d buf st i meta j map :
  msm_iommu_meta_lookup buf (iommu_root st) = Some (i, meta) →
  msm_iommu_map_lookup meta d = Some (j, map) →
  msm_dma_unmap_sg d buf st =
  if atomic_dec_and_test (map_refcount map) then
    put_result i (released_meta meta (delete j (maps meta))) (iommu_root st)
               (trace st ++ unmap_and_free (map_put map))
  else
    put_result i (released_meta meta (<[j := map_put map]> (maps meta)))
               (iommu_root st) (trace st).
Proof.
  intros Hmeta Hmap. unfold msm_dma_unmap_sg. rewrite Hmeta, Hmap.
  apply meta_lookup_Some in Hmeta as [Hi _].
  rewrite (alter_at _ _ _ _ Hi).
  destruct (atomic_dec_and_test (map_refcount map)).
  - erewrite meta_put_at; last first.
    { simpl. apply list_lookup_insert_eq. by eapply lookup_lt_Some. }
    simpl. unfold put_result, released_meta; simpl.
    by rewrite delete_insert_same, list_insert_insert_eq.
  - erewrite meta_put_at; last first.
    { simpl. apply list_lookup_insert_eq. by eapply lookup_lt_Some. }
    simpl. unfold put_result, released_meta; simpl.
    by rewrite delete_insert_same, list_insert_insert_eq.
Qed.

(** ** The sweeps *)

Lemma buf_freed_scan_spec l ul :
  buf_freed_scan l ul = ([], ul ++ drain_freed l).
Proof.
  unfold drain_freed. revert ul.
  induction l as [|map l IH]; intros ul; simpl.
  - by rewrite app_nil_r.
  - destruct (atomic_dec_and_test (map_refcount map)) eqn:E.
    + rewrite IH, filter_cons_True by by rewrite E.
      simpl. by rewrite <-(assoc_L (++)).
    + rewrite IH, filter_cons_False by (rewrite E; simpl; tauto). done.
Qed.

Lemma sweep_fails_cons d map l :
  sweep_fails d (map :: l) ↔
  (dev map = d ∧ atomic_dec_and_test (map_refcount map) = false) ∨
  sweep_fails d l.
Proof. unfold sweep_fails. by rewrite Exists_cons. Qed.

Lemma sweep_kept_cons d map l :
  sweep_kept d (map :: l) =
  if decide (dev map = d)
  then if atomic_dec_and_test (map_refcount map) then sweep_kept d l
       else map_put map :: sweep_kept d l
  else map :: sweep_kept d l.
Proof.
  unfold sweep_kept; simpl.
  destruct (decide (dev map = d)); [|done].
  by destruct (atomic_dec_and_test (map_refcount map)).
Qed.

Lemma sweep_freed_cons d map l :
  sweep_freed d (map :: l) =
  if decide (dev map = d)
  then if atomic_dec_and_test (map_refcount map)
       then map_put map :: sweep_freed d l
       else sweep_freed d l
  else sweep_freed d l.
Proof.
  unfold sweep_freed.
  destruct (decide (dev map = d)) as [Hd|Hd].
  - destruct (atomic_dec_and_test (map_refcount map)) eqn:E.
    + by rewrite filter_cons_True by (by rewrite E).
    + by rewrite filter_cons_False by (rewrite E; simpl; tauto).
  - by rewrite filter_cons_False by (by intros [? _]).
Qed.

Lemma unmap_all_scan_spec d l ul ret :
  unmap_all_scan d l ul ret =
  (sweep_kept d l, ul ++ sweep_freed d l,
   if decide (sweep_fails d l) then - EINVAL else ret).
Proof.
  revert ul ret.
  induction l as [|map l IH]; intros ul ret.
  - cbn [unmap_all_scan]. change (sweep_freed d []) with (@nil msm_iommu_map).
    change (sweep_kept d []) with (@nil msm_iommu_map).
    rewrite app_nil_r.
    rewrite decide_False; [done|]. unfold sweep_fails. by intros ?%Exists_nil.
  - cbn [unmap_all_scan]. rewrite sweep_kept_cons, sweep_freed_cons.
    destruct (Z.eqb_spec (dev map) d) as [Hd|Hd]; cbn [negb].
    + rewrite !(decide_True (P := dev map = d)) by done.
      destruct (atomic_dec_and_test (map_refcount map)) eqn:E.
      * rewrite IH, <-(assoc_L (++)). simpl app.
        do 2 f_equal.
        apply decide_ext. rewrite sweep_fails_cons. intuition congruence.
      * rewrite IH.
        rewrite (decide_True (P := sweep_fails d (map :: l)))
          by (apply sweep_fails_cons; auto).
        by destruct (decide (sweep_fails d l)).
    + rewrite !(decide_False (P := dev map = d)) by done.
      rewrite IH.
      do 2 f_equal. apply decide_ext. rewrite sweep_fails_cons. intuition congruence.
Qed.

Lemma unmap_all_walk_spec d metas ul ret :
  unmap_all_walk d metas ul ret =
  ((λ meta, meta_set_maps (sweep_kept d (maps meta)) meta) <$> metas,
   ul ++ (metas ≫= λ meta, sweep_freed d (maps meta)),
   if decide (Exists (λ meta, sweep_fails d (maps meta)) metas)
   then - EINVAL else ret).
Proof.
  revert ul ret. induction metas as [|meta metas IH]; intros ul ret.
  - cbn [unmap_all_walk]. rewrite fmap_nil. simpl mbind. rewrite app_nil_r.
    rewrite decide_False; [done|]. by intros ?%Exists_nil.
  - cbn [unmap_all_walk]. rewrite unmap_all_scan_spec, IH.
    rewrite fmap_cons, bind_cons, <-(assoc_L (++)).
    do 2 f_equal.
    destruct (decide (sweep_fails d (maps meta))) as [Hf|Hf].
    + rewrite (decide_True (P := Exists _ (meta :: metas)))
        by (apply Exists_cons; auto).
      by destruct (decide (Exists _ metas)).
    + apply decide_ext. rewrite Exists_cons. tauto.
Qed.

Lemma unmap_all_for_dev_spec d st :
  msm_dma_unmap_all_for_dev d st =
  ({| iommu_root :=
        (λ meta, meta_set_maps (sweep_kept d (maps meta)) meta) <$>
          iommu_root st;
      trace :=
        trace st ++
        ((iommu_root st ≫= λ meta, sweep_freed d (maps meta)) ≫=
           unmap_and_free) |},
   if decide (Exists (λ meta, sweep_fails d (maps meta)) (iommu_root st))
   then - EINVAL else 0).
Proof.
  unfold msm_dma_unmap_all_for_dev.
  rewrite unmap_all_walk_spec, drain_unmap_list_emit. done.
Qed.

Lemma buf_freed_found buf st i meta :
  msm_iommu_meta_lookup buf (iommu_root st) = Some (i, meta) →
  msm_dma_buf_freed buf st =
  put_result i (released_meta meta []) (iommu_root st)
             (trace st ++ (drain_freed (maps meta) ≫= unmap_and_free)).
Proof.
  intros Hmeta. unfold msm_dma_buf_freed. rewrite Hmeta.
  rewrite buf_freed_scan_spec, drain_unmap_list_emit.
  apply meta_lookup_Some in Hmeta as [Hi _].
  rewrite (alter_at _ _ _ _ Hi).
  erewrite meta_put_at; last first.
  { simpl. apply list_lookup_insert_eq. by eapply lookup_lt_Some. }
  simpl. unfold put_result, released_meta; simpl.
  by rewrite delete_insert_same, list_insert_insert_eq.
Qed.

(** ** The invariant is kept *)




Lemma meta_lookup_None buf root :
  msm_iommu_meta_lookup buf root = None ↔ buf ∉ buffer <$> root.
Proof.
  unfold msm_iommu_meta_lookup. rewrite list_find_None, Forall_forall.
  rewrite list_elem_of_fmap. split.
  - intros Hall (m & -> & Hin). by apply (Hall m).
  - intros Hnot m Hin Hb. apply Hnot. by exists m.
Qed.









Lemma root_sorted_key_unique root i k m1 m2 :
  root_sorted root → root !! i = Some m1 → root !! k = Some m2 →
  buffer m1 = buffer m2 → i = k.
Proof.
  intros Hs H1 H2 Hb.
  unfold root_sorted in Hs.
  eapply (NoDup_lookup (buffer <$> root) i k (buffer m1)).
  - clear -Hs. induction Hs as [|x l Hs IH Hx]; constructor; [|done].
    intros Hin. rewrite Forall_forall in Hx. specialize (Hx _ Hin). lia.
  - by rewrite list_lookup_fmap, H1.
  - by rewrite list_lookup_fmap, H2, Hb.
Qed.


Section Invariant.
Context `{P : Platform}.






End Invariant.




(** C7: when buffer [buf] has no meta, or its meta has no map of device
    [d], msm_dma_unmap_sg returns with the whole state as it was: the tree,
    every reference count and the trace of outside calls (nothing is
    unmapped or freed, and the function has no status to return). *)
Theorem unmap_sg_without_mapping_is_noop (d : device) (buf : Z) (st : state) :
  no_active_mapping d buf st → msm_dma_unmap_sg d buf st = st.
Proof.
  intros [Hnone|(i & meta & Hmeta & Hmap)].
  - by apply unmap_sg_no_meta.
  - by eapply unmap_sg_no_map.
Qed.

Lemma unmap_sg_without_mapping_is_noop_witness :
  no_active_mapping 11 100 st_lazy ∧ msm_dma_unmap_sg 11 100 st_lazy = st_lazy.
Proof.
  assert (no_active_mapping 11 100 st_lazy) as Hno.
  { right. eexists 0%nat, _. split; reflexivity. }
  split; [exact Hno|].
  exact (unmap_sg_without_mapping_is_noop 11 100 st_lazy Hno).
Defined.

(** ** Reuse of a cached mapping *)

Lemma list_find_insert_found {A} (Q : A → Prop) `{!∀ x, Decision (Q x)}
    (l : list A) i x x' :
  list_find Q l = Some (i, x) → Q x' →
  list_find Q (<[i := x']> l) = Some (i, x').
Proof.
  intros (Hi & _ & Hleast)%list_find_Some Hx'. apply list_find_Some.
  split_and!; [|done|].
  - apply list_lookup_insert_eq. by eapply lookup_lt_Some.
  - intros k y Hk Hlt. rewrite list_lookup_insert_ne in Hk by lia.
    by eapply Hleast.
Qed.

Lemma meta_lookup_insert_found buf root i meta meta' :
  msm_iommu_meta_lookup buf root = Some (i, meta) → buffer meta' = buf →
  msm_iommu_meta_lookup buf (<[i := meta']> root) = Some (i, meta').
Proof.
  intros Hmeta Hb. unfold msm_iommu_meta_lookup in *.
  by eapply list_find_insert_found.
Qed.

Lemma map_lookup_reused meta d j map :
  msm_iommu_map_lookup meta d = Some (j, map) →
  msm_iommu_map_lookup (reused_meta meta j map) d =
  Some (j, map_set_refcount (atomic_inc (map_refcount map)) map).
Proof.
  intros Hmap. unfold msm_iommu_map_lookup; simpl.
  eapply list_find_insert_found; [exact Hmap|].
  by apply map_lookup_Some in Hmap as [_ Hd].
Qed.

Section Reuse.
Context `{P : Platform}.

(** After any map call that returns, the pair has a map record holding
    the address and length the call handed back. *)
Lemma map_leaves_entry fuel d sg n dr buf attrs st st' sg' r :
  msm_dma_map_sg_attrs fuel d sg n dr buf attrs st = Some (st', sg', r) →
  ∃ i meta j map,
    msm_iommu_meta_lookup buf (iommu_root st') = Some (i, meta) ∧
    msm_iommu_map_lookup meta d = Some (j, map) ∧
    dma_address (sgl map) = dma_address sg' ∧
    dma_length (sgl map) = dma_length sg'.
Proof.
  intros [_ Hcase]%map_inv.
  destruct Hcase as [i meta j map Hmeta Hmap
                    |i meta tr1 tr2 sg2 Hmeta Hmap _ _
                    |tr0 tr1 tr2 sg2 Hmeta _ _ _]; simpl.
  - eexists i, _, j, _. split_and!.
    + eapply meta_lookup_insert_found; [exact Hmeta|].
      simpl. by apply meta_lookup_Some in Hmeta as [_ ?].
    + by apply map_lookup_reused.
    + done.
    + done.
  - eexists i, _, 0%nat, _. split_and!.
    + eapply meta_lookup_insert_found; [exact Hmeta|].
      simpl. by apply meta_lookup_Some in Hmeta as [_ ?].
    + unfold msm_iommu_map_lookup; simpl. by rewrite decide_True.
    + done.
    + done.
  - set (seed := 2 - dma_get_attr DMA_ATTR_NO_DELAYED_UNMAP attrs).
    exists (msm_iommu_meta_pos buf (iommu_root st)),
           (mk_meta [created_map d dr n seed sg2] seed buf), 0%nat,
           (created_map d dr n seed sg2).
    split_and!.
    + by apply (meta_add_lookup (mk_meta [created_map d dr n seed sg2] seed buf)).
    + unfold msm_iommu_map_lookup; simpl. by rewrite decide_True.
    + done.
    + done.
Qed.

End Reuse.

(** C5: (1) when the buffer's meta holds a map of the device, a map call
    returns, for any bound on its retry loops, the element count it was
    given, hands back the address and length stored in that map, and calls
    nothing outside the file except the barrier of a coherent device: no
    allocation and no dma_map_sg_attrs.  (2) The stored pair is what the
    first call produced: a map call made right after one that returned
    hands back the address and length of the first. *)
Theorem map_reuses_cached_mapping `{Platform} :
  (∀ fuel d sg n dr buf attrs st i meta j map,
     msm_iommu_meta_lookup buf (iommu_root st) = Some (i, meta) →
     msm_iommu_map_lookup meta d = Some (j, map) →
     ∃ st' sg',
       msm_dma_map_sg_attrs fuel d sg n dr buf attrs st = Some (st', sg', n) ∧
       dma_address sg' = dma_address (sgl map) ∧
       dma_length sg' = dma_length (sgl map) ∧
       trace st' = trace st ++ barrier d ∧
       (∀ e, e ∈ barrier d → e = Ev_dmb)) ∧
  (∀ fuel1 fuel2 d buf sg1 n1 dr1 attrs1 sg2 n2 dr2 attrs2 st st1 sg1' r1,
     msm_dma_map_sg_attrs fuel1 d sg1 n1 dr1 buf attrs1 st
       = Some (st1, sg1', r1) →
     ∃ st2 sg2',
       msm_dma_map_sg_attrs fuel2 d sg2 n2 dr2 buf attrs2 st1
         = Some (st2, sg2', n2) ∧
       dma_address sg2' = dma_address sg1' ∧
       dma_length sg2' = dma_length sg1' ∧
       trace st2 = trace st1 ++ barrier d).
Proof.
  assert (∀ fuel d sg n dr buf attrs st i meta j map,
     msm_iommu_meta_lookup buf (iommu_root st) = Some (i, meta) →
     msm_iommu_map_lookup meta d = Some (j, map) →
     ∃ st' sg',
       msm_dma_map_sg_attrs fuel d sg n dr buf attrs st = Some (st', sg', n) ∧
       dma_address sg' = dma_address (sgl map) ∧
       dma_length sg' = dma_length (sgl map) ∧
       trace st' = trace st ++ barrier d ∧
       (∀ e, e ∈ barrier d → e = Ev_dmb)) as Hhit.
  { intros fuel d sg n dr buf attrs st i meta j map Hmeta Hmap.
    eexists _, _. split; [by apply map_hit|]. split_and!; [done..|].
    unfold barrier. intros e.
    destruct (is_device_dma_coherent d).
    - by intros ->%list_elem_of_singleton.
    - by intros ?%elem_of_nil. }
  split; [exact Hhit|].
  intros fuel1 fuel2 d buf sg1 n1 dr1 attrs1 sg2 n2 dr2 attrs2 st st1 sg1' r1
         Hfirst.
  apply map_leaves_entry in Hfirst as (i & meta & j & map & Hmeta & Hmap & Ha & Hl).
  destruct (Hhit fuel2 d sg2 n2 dr2 buf attrs2 st1 i meta j map Hmeta Hmap)
    as (st2 & sg2' & Hrun & Ha2 & Hl2 & Htr & _).
  exists st2, sg2'. split_and!; [done|congruence|congruence|done].
Qed.

Lemma map_reuses_cached_mapping_witness :
  (msm_iommu_meta_lookup 100 (iommu_root st_lazy)
     = Some (0%nat, {| maps := [sample_map 2]; meta_refcount := 2;
                       buffer := 100 |}) ∧
   msm_iommu_map_lookup {| maps := [sample_map 2]; meta_refcount := 2;
                           buffer := 100 |} 10
     = Some (0%nat, sample_map 2)) ∧
  ∃ st' sg',
    msm_dma_map_sg_attrs (P := sample_platform) 0 10 sample_sg 4
                         DMA_FROM_DEVICE 100 (Some 8) st_lazy
      = Some (st', sg', 4) ∧
    dma_address sg' = 40976 ∧ dma_length sg' = 512 ∧
    trace st' = trace st_lazy ++ barrier (H := sample_platform) 10 ∧
    (∀ e, e ∈ barrier (H := sample_platform) 10 → e = Ev_dmb).
Proof.
  split; [split; reflexivity|].
  exact (proj1 (map_reuses_cached_mapping (H := sample_platform))
               0%nat 10 sample_sg 4 DMA_FROM_DEVICE 100 (Some 8) st_lazy
               0%nat _ 0%nat (sample_map 2) eq_refl eq_refl).
Defined.

(** C10: on a cache hit the meta's and the map's reference counts each
    go through one atomic_inc, which adds exactly 1 to a counter below
    INT_MAX, whatever attributes the call carries: the call returns the
    same state, scatterlist and value for any two attribute words. *)
Theorem map_hit_increments_by_one `{Platform} fuel d sg n dr buf attrs st
    i meta j map :
  msm_iommu_meta_lookup buf (iommu_root st) = Some (i, meta) →
  msm_iommu_map_lookup meta d = Some (j, map) →
  ∃ st' sg' meta' map',
    msm_dma_map_sg_attrs fuel d sg n dr buf attrs st = Some (st', sg', n) ∧
    msm_iommu_meta_lookup buf (iommu_root st') = Some (i, meta') ∧
    msm_iommu_map_lookup meta' d = Some (j, map') ∧
    meta_refcount meta' = atomic_inc (meta_refcount meta) ∧
    map_refcount map' = atomic_inc (map_refcount map) ∧
    (INT_MIN ≤ meta_refcount meta < INT_MAX →
     meta_refcount meta' = meta_refcount meta + 1) ∧
    (INT_MIN ≤ map_refcount map < INT_MAX →
     map_refcount map' = map_refcount map + 1) ∧
    (∀ attrs',
       msm_dma_map_sg_attrs fuel d sg n dr buf attrs' st
       = Some (st', sg', n)).
Proof.
  intros Hmeta Hmap.
  eexists _, _, (reused_meta meta j map), _. split_and!.
  - by apply map_hit.
  - simpl. eapply meta_lookup_insert_found; [exact Hmeta|].
    simpl. by apply meta_lookup_Some in Hmeta as [_ ?].
  - by apply map_lookup_reused.
  - done.
  - done.
  - simpl. apply atomic_inc_succ.
  - simpl. apply atomic_inc_succ.
  - intros attrs'. by apply map_hit.
Qed.

Lemma map_hit_increments_by_one_witness :
  ∃ st' sg' meta' map',
    msm_dma_map_sg_attrs (P := sample_platform) 0 10 sample_sg 1
                         DMA_TO_DEVICE 100 (Some 8) st_lazy
      = Some (st', sg', 1) ∧
    msm_iommu_meta_lookup 100 (iommu_root st') = Some (0%nat, meta') ∧
    msm_iommu_map_lookup meta' 10 = Some (0%nat, map') ∧
    meta_refcount meta' = atomic_inc 2 ∧
    map_refcount map' = atomic_inc 2 ∧
    (INT_MIN ≤ 2 < INT_MAX → meta_refcount meta' = 2 + 1) ∧
    (INT_MIN ≤ 2 < INT_MAX → map_refcount map' = 2 + 1) ∧
    (∀ attrs',
       msm_dma_map_sg_attrs (P := sample_platform) 0 10 sample_sg 1
                            DMA_TO_DEVICE 100 attrs' st_lazy
       = Some (st', sg', 1)).
Proof.
  exact (map_hit_increments_by_one (H := sample_platform)
           0%nat 10 sample_sg 1 DMA_TO_DEVICE 100 (Some 8) st_lazy
           0%nat {| maps := [sample_map 2]; meta_refcount := 2;
                    buffer := 100 |}
           0%nat (sample_map 2) eq_refl eq_refl).
Defined.

(** ** The device sweep *)

Lemma survives_sweep_Exists d st :
  survives_sweep d st ↔
  Exists (λ meta, sweep_fails d (maps meta)) (iommu_root st).
Proof.
  unfold survives_sweep, sweep_fails. rewrite Exists_exists. split.
  - intros (meta & map & Hmeta & Hmap & Hd & Hz).
    exists meta. split; [done|]. apply Exists_exists. by exists map.
  - intros (meta & Hmeta & (map & Hmap & Hd & Hz)%Exists_exists).
    by exists meta, map.
Qed.

Lemma sweep_freed_events d root meta map :
  meta ∈ root → map ∈ maps meta → dev map = d →
  atomic_dec_and_test (map_refcount map) = true →
  unmap_and_free (map_put map) ⊆
  (root ≫= λ meta, sweep_freed d (maps meta)) ≫= unmap_and_free.
Proof.
  intros Hmeta Hmap Hd Hz e He.
  apply list_elem_of_bind. exists (map_put map). split; [done|].
  apply list_elem_of_bind. exists meta. split; [|done].
  unfold sweep_freed. apply list_elem_of_fmap_2.
  apply list_elem_of_filter. split; [|done]. split; [done|]. by rewrite Hz.
Qed.

Lemma sweep_kept_nonzero d l map :
  map ∈ sweep_kept d l → dev map = d → map_refcount map ≠ 0.
Proof.
  unfold sweep_kept. intros (m & Hm & Hkeep)%list_elem_of_omap Hd.
  destruct (decide (dev m = d)) as [Hdm|Hdm]; [|by simplify_eq].
  destruct (atomic_dec_and_test (map_refcount m)) eqn:Hz; [done|].
  simplify_eq. simpl. unfold atomic_dec_and_test in Hz.
  by apply Z.eqb_neq in Hz.
Qed.

(** C6: msm_dma_unmap_all_for_dev returns a nonzero status, -EINVAL,
    exactly when some map of the device, under some meta, does not reach
    zero with one decrement, and 0 otherwise.  Whether or not that
    happens the sweep covers every meta of the tree and every map on it:
    maps of other devices stay as they are; a map of the device that does
    not reach zero stays linked with its count decremented; every map of
    the device that reaches zero is unlinked, passed to dma_unmap_sg and
    freed, in the order met. *)
Theorem unmap_all_for_dev_reports (d : device) (st : state) :
  let st' := (msm_dma_unmap_all_for_dev d st).1 in
  let ret := (msm_dma_unmap_all_for_dev d st).2 in
  let evs := (iommu_root st ≫= λ meta, sweep_freed d (maps meta)) ≫=
               unmap_and_free in
  (ret ≠ 0 ↔ survives_sweep d st) ∧
  (ret = 0 ∨ ret = - EINVAL) ∧
  iommu_root st' =
    (λ meta, meta_set_maps (sweep_kept d (maps meta)) meta) <$> iommu_root st ∧
  trace st' = trace st ++ evs ∧
  (∀ meta map,
     meta ∈ iommu_root st → map ∈ maps meta → dev map = d →
     atomic_dec_and_test (map_refcount map) = true →
     Ev_dma_unmap_sg (dev map) (sgl map) (nents map) (dir map) ∈ evs ∧
     Ev_kfree_map (map_put map) ∈ evs) ∧
  (∀ meta' map',
     meta' ∈ iommu_root st' → map' ∈ maps meta' → dev map' = d →
     map_refcount map' ≠ 0).
Proof.
  rewrite unmap_all_for_dev_spec. simpl. split_and!.
  - rewrite survives_sweep_Exists.
    destruct (decide (Exists _ (iommu_root st))) as [Hex|Hex].
    + split; [done|]. intros _. unfold EINVAL. lia.
    + split; [done|]. intros Hex'. by destruct Hex.
  - destruct (decide (Exists _ (iommu_root st))); auto.
  - done.
  - done.
  - intros meta map Hmeta Hmap Hd Hz.
    pose proof (sweep_freed_events d _ _ _ Hmeta Hmap Hd Hz) as Hsub.
    split; apply Hsub; unfold unmap_and_free; simpl.
    + apply list_elem_of_here.
    + apply list_elem_of_further, list_elem_of_here.
  - intros meta' map' (meta & -> & Hmeta)%list_elem_of_fmap Hmap Hd.
    simpl in Hmap. by eapply sweep_kept_nonzero.
Qed.

(** ** Map, then unmap *)

Lemma singleton_map_lookup m r buf :
  msm_iommu_map_lookup (mk_meta [m] r buf) (dev m) = Some (0%nat, m).
Proof. unfold msm_iommu_map_lookup. simpl. by rewrite decide_True. Qed.

Lemma unmap_last_reference d buf root tr m :
  msm_iommu_meta_lookup buf root = None →
  dev m = d → map_refcount m = 1 →
  msm_dma_unmap_sg d buf
    {| iommu_root := msm_iommu_meta_add (mk_meta [m] 1 buf) root;
       trace := tr |}
  = {| iommu_root := root;
       trace := (tr ++ unmap_and_free (map_set_refcount 0 m)) ++
                [Ev_kfree_meta (mk_meta [] 0 buf)] |}.
Proof.
  intros Hfresh <- Hr.
  rewrite (unmap_sg_found _ _ _ (msm_iommu_meta_pos buf root)
             (mk_meta [m] 1 buf) 0%nat m);
    [|by apply (meta_add_lookup (mk_meta [m] 1 buf))
     |apply singleton_map_lookup].
  rewrite Hr. change (atomic_dec_and_test 1) with true. simpl.
  unfold put_result, released_meta, map_put. simpl. rewrite Hr.
  change (atomic_dec_return 1) with 0. simpl.
  by rewrite (meta_add_delete (mk_meta [m] 1 buf)).
Qed.

Lemma unmap_one_of_many d buf root tr m r :
  msm_iommu_meta_lookup buf root = None →
  dev m = d →
  atomic_dec_return (map_refcount m) ≠ 0 → atomic_dec_return r ≠ 0 →
  msm_dma_unmap_sg d buf
    {| iommu_root := msm_iommu_meta_add (mk_meta [m] r buf) root;
       trace := tr |}
  = {| iommu_root :=
         msm_iommu_meta_add
           (mk_meta [map_put m] (atomic_dec_return r) buf) root;
       trace := tr |}.
Proof.
  intros Hfresh <- Hm Hr.
  rewrite (unmap_sg_found _ _ _ (msm_iommu_meta_pos buf root)
             (mk_meta [m] r buf) 0%nat m);
    [|by apply (meta_add_lookup (mk_meta [m] r buf))
     |apply singleton_map_lookup].
  unfold atomic_dec_and_test. rewrite (proj2 (Z.eqb_neq _ _) Hm). simpl.
  unfold put_result, released_meta. simpl.
  rewrite decide_False by done.
  by rewrite (insert_at_pos (mk_meta [m] r buf)).
Qed.

(** C1, as the code has it: the creating map call of a buffer seeds the
    meta and the map with 2 - not_lazy.  With DMA_ATTR_NO_DELAYED_UNMAP
    set the seed is 1 and one unmap call unlinks, unmaps and frees the map
    and erases and frees the meta; with the attribute clear the seed is 2,
    one unmap call leaves both linked with count 1, and the second releases
    them. *)
Theorem map_seeds_refcounts `{Platform} fuel d sg n dr buf attrs st
    tr0 tr1 tr2 sg' :
  msm_iommu_meta_lookup buf (iommu_root st) = None →
  kmalloc_retry fuel ALLOC_META (trace st) = Some tr0 →
  kmalloc_retry fuel ALLOC_MAP tr0 = Some tr1 →
  dma_map_retry fuel d sg n dr attrs tr1 = Some (tr2, sg') →
  let not_lazy := dma_get_attr DMA_ATTR_NO_DELAYED_UNMAP attrs in
  let map := created_map d dr n (2 - not_lazy) sg' in
  let meta := mk_meta [map] (2 - not_lazy) buf in
  let released :=
    {| iommu_root := iommu_root st;
       trace := (tr2 ++ unmap_and_free (map_set_refcount 0 map)) ++
                [Ev_kfree_meta (mk_meta [] 0 buf)] |} in
  ∃ st',
    msm_dma_map_sg_attrs fuel d sg n dr buf attrs st = Some (st', sg', n) ∧
    msm_iommu_meta_lookup buf (iommu_root st') =
      Some (msm_iommu_meta_pos buf (iommu_root st), meta) ∧
    (not_lazy = 0 ∨ not_lazy = 1) ∧
    (not_lazy = 1 → msm_dma_unmap_sg d buf st' = released) ∧
    (not_lazy = 0 →
     msm_dma_unmap_sg d buf st' =
       {| iommu_root :=
            msm_iommu_meta_add (mk_meta [map_set_refcount 1 map] 1 buf)
                               (iommu_root st);
          trace := tr2 |} ∧
     msm_dma_unmap_sg d buf (msm_dma_unmap_sg d buf st') = released).
Proof.
  intros Hfresh Hk0 Hk Hm not_lazy map meta released.
  eexists. split; [by eapply map_miss_fresh|]. split_and!.
  - simpl. by apply (meta_add_lookup meta).
  - apply dma_get_attr_bit.
  - intros Hset. subst map meta. fold not_lazy. rewrite Hset. simpl.
    by rewrite unmap_last_reference.
  - intros Hclear. subst map meta. fold not_lazy. rewrite Hclear. simpl.
    rewrite unmap_one_of_many by done. split; [done|].
    by rewrite unmap_last_reference.
Qed.

Lemma map_seeds_refcounts_witness :
  ∃ st',
    msm_dma_map_sg_attrs (P := sample_platform) 2 10 sample_sg 1
                         DMA_TO_DEVICE 100 (Some 8) empty_state
      = Some (st', sample_sgl, 1) ∧
    msm_iommu_meta_lookup 100 (iommu_root st') =
      Some (0%nat, mk_meta [sample_map 1] 1 100) ∧
    msm_dma_unmap_sg 10 100 st' =
      {| iommu_root := [];
         trace := (sample_trace (Some 8) ++ unmap_and_free (sample_map 0)) ++
                  [Ev_kfree_meta (mk_meta [] 0 100)] |}.
Proof.
  destruct (map_seeds_refcounts (H := sample_platform)
              2%nat 10 sample_sg 1 DMA_TO_DEVICE 100 (Some 8) empty_state
              [Ev_kmalloc ALLOC_META false; Ev_kmalloc ALLOC_META true]
              [Ev_kmalloc ALLOC_META false; Ev_kmalloc ALLOC_META true;
               Ev_kmalloc ALLOC_MAP false; Ev_kmalloc ALLOC_MAP true]
              (sample_trace (Some 8)) sample_sgl
              eq_refl eq_refl eq_refl eq_refl)
    as (st' & Hrun & Hlook & _ & Hset & _).
  exists st'. split_and!; [exact Hrun|exact Hlook|exact (Hset eq_refl)].
Defined.

(** C1 as worded fails: on the sample platform the creating call with the
    attribute set (bit 3 of the flag word 8) seeds both counts with 1, not
    2, and a single unmap call empties the cache. *)
Lemma eager_seed_counterexample :
  dma_get_attr (DMA_ATTR_NO_DELAYED_UNMAP (Platform := sample_platform))
               (Some 8) = 1 ∧
  msm_dma_map_sg_attrs (P := sample_platform) 2 10 sample_sg 1
                       DMA_TO_DEVICE 100 (Some 8) empty_state
    = Some (st_eager, sample_sgl, 1) ∧
  ¬ seeded_as_claimed (H := sample_platform) (Some 8) 100 st_eager ∧
  iommu_root (msm_dma_unmap_sg 10 100 st_eager) = [].
Proof.
  split_and!; [reflexivity|reflexivity| |reflexivity].
  intros (i & meta & map & Hmeta & _ & Hseed & _).
  vm_compute in Hmeta. injection Hmeta as <- <-.
  vm_compute in Hseed. discriminate Hseed.
Qed.

(** C9, as the code has it: on a cache without buffer X, a map call with
    the attribute clear returns an address; a second map call for the same
    device returns that address and length again and calls nothing outside
    but the barrier of a coherent device.  The counts then stand at 3.  The
    first unmap call lowers them to 2 and the second to 1: neither call
    unmaps or frees anything, and the map stays cached under X. *)
Theorem lazy_map_twice_unmap_twice `{Platform} fuel fuel2 A X sg n dr attrs
    sg2 n2 dr2 attrs2 st tr0 tr1 tr2 sg1 :
  msm_iommu_meta_lookup X (iommu_root st) = None →
  dma_get_attr DMA_ATTR_NO_DELAYED_UNMAP attrs = 0 →
  kmalloc_retry fuel ALLOC_META (trace st) = Some tr0 →
  kmalloc_retry fuel ALLOC_MAP tr0 = Some tr1 →
  dma_map_retry fuel A sg n dr attrs tr1 = Some (tr2, sg1) →
  let map := created_map A dr n 2 sg1 in
  let cached (refs : Z) : state :=
    {| iommu_root :=
         msm_iommu_meta_add (mk_meta [map_set_refcount refs map] refs X)
                            (iommu_root st);
       trace := tr2 ++ barrier A |} in
  ∃ st1 st2 sg2',
    msm_dma_map_sg_attrs fuel A sg n dr X attrs st = Some (st1, sg1, n) ∧
    trace st1 = tr2 ∧
    msm_dma_map_sg_attrs fuel2 A sg2 n2 dr2 X attrs2 st1
      = Some (st2, sg2', n2) ∧
    dma_address sg2' = dma_address sg1 ∧
    dma_length sg2' = dma_length sg1 ∧
    st2 = cached 3 ∧
    msm_dma_unmap_sg A X st2 = cached 2 ∧
    msm_dma_unmap_sg A X (msm_dma_unmap_sg A X st2) = cached 1 ∧
    msm_iommu_meta_lookup X (iommu_root (cached 1)) =
      Some (msm_iommu_meta_pos X (iommu_root st),
            mk_meta [map_set_refcount 1 map] 1 X).
Proof.
  intros Hfresh Hclear Hk0 Hk Hm map cached.
  pose proof (map_miss_fresh fuel A sg n dr X attrs st tr0 tr1 tr2 sg1
                Hfresh Hk0 Hk Hm) as Hfirst.
  simpl in Hfirst. rewrite Hclear in Hfirst. simpl in Hfirst. fold map in Hfirst.
  set (meta := mk_meta [map] 2 X) in *.
  set (i := msm_iommu_meta_pos X (iommu_root st)).
  assert (msm_iommu_meta_lookup X (msm_iommu_meta_add meta (iommu_root st))
          = Some (i, meta)) as Hlook
    by by apply (meta_add_lookup meta).
  assert (msm_iommu_map_lookup meta A = Some (0%nat, map)) as Hmap
    by apply singleton_map_lookup.
  set (st1 := {| iommu_root := msm_iommu_meta_add meta (iommu_root st);
                 trace := tr2 |}) in *.
  assert (msm_dma_map_sg_attrs fuel2 A sg2 n2 dr2 X attrs2 st1
          = Some (cached 3, reused_sg sg2 map, n2)) as Hsecond.
  { rewrite (map_hit fuel2 A sg2 n2 dr2 X attrs2 st1 i meta 0%nat map Hlook Hmap).
    unfold emit, set_root, cached. cbn [iommu_root trace st1].
    rewrite <-(insert_at_pos meta (mk_meta [map_set_refcount 3 map] 3 X)
                 (iommu_root st) eq_refl).
    reflexivity. }
  exists st1, (cached 3), (reused_sg sg2 map).
  split; [exact Hfirst|]. split; [done|].
  split; [exact Hsecond|]. split; [done|]. split; [done|].
  split; [done|]. unfold cached.
  rewrite unmap_one_of_many by done.
  split; [done|]. rewrite unmap_one_of_many by done.
  split; [done|].
  by apply (meta_add_lookup (mk_meta [map_set_refcount 1 map] 1 X)).
Qed.

Lemma lazy_map_twice_unmap_twice_witness :
  ∃ st1 st2 sg2',
    msm_dma_map_sg_attrs (P := sample_platform) 2 10 sample_sg 1
                         DMA_TO_DEVICE 100 None empty_state
      = Some (st1, sample_sgl, 1) ∧
    msm_dma_map_sg_attrs (P := sample_platform) 2 10 sample_sg 1
                         DMA_TO_DEVICE 100 None st1
      = Some (st2, sg2', 1) ∧
    dma_address sg2' = 40976 ∧
    msm_dma_unmap_sg 10 100 (msm_dma_unmap_sg 10 100 st2) =
      {| iommu_root := [mk_meta [sample_map 1] 1 100];
         trace := sample_trace None |}.
Proof.
  destruct (lazy_map_twice_unmap_twice (H := sample_platform)
              2%nat 2%nat 10 100 sample_sg 1 DMA_TO_DEVICE None
              sample_sg 1 DMA_TO_DEVICE None empty_state
              [Ev_kmalloc ALLOC_META false; Ev_kmalloc ALLOC_META true]
              [Ev_kmalloc ALLOC_META false; Ev_kmalloc ALLOC_META true;
               Ev_kmalloc ALLOC_MAP false; Ev_kmalloc ALLOC_MAP true]
              (sample_trace None) sample_sgl
              eq_refl eq_refl eq_refl eq_refl eq_refl)
    as (st1 & st2 & sg2' & H1 & _ & H2 & Ha & _ & _ & _ & H4 & _).
  exists st1, st2, sg2'. split_and!; [exact H1|exact H2|exact Ha|exact H4].
Defined.

(** C9 as worded fails: on the sample platform, after the two map calls
    with the attribute clear, the first unmap call leaves the map linked
    with count 2, and the second unmap call is not a no-op. *)
Lemma lazy_scenario_counterexample :
  ¬ scenario_as_claimed (H := sample_platform) 2 10 100 sample_sg 1
                        DMA_TO_DEVICE None.
Proof.
  intros (st1 & sg1 & st2 & sg2 & H1 & H2 & _ & Hno & _).
  vm_compute in H1. injection H1 as <- <-.
  vm_compute in H2. injection H2 as <- <-.
  destruct Hno as [Hnone|(i & meta & Hmeta & Hmap)].
  - vm_compute in Hnone. discriminate Hnone.
  - vm_compute in Hmeta. injection Hmeta as <- <-.
    vm_compute in Hmap. discriminate Hmap.
Qed.

(** ** The buffer drain *)

Lemma meta_lookup_delete_None root i meta :
  root_sorted root → root !! i = Some meta →
  msm_iommu_meta_lookup (buffer meta) (delete i root) = None.
Proof.
  intros Hs Hi. apply meta_lookup_None.
  intros (m' & Hb & (k & Hk)%list_elem_of_lookup)%list_elem_of_fmap.
  rewrite list_lookup_delete in Hk.
  destruct (decide (k < i)%nat) as [Hlt|Hge].
  - pose proof (root_sorted_key_unique _ _ _ _ _ Hs Hi Hk Hb). lia.
  - pose proof (root_sorted_key_unique _ _ _ _ _ Hs Hi Hk Hb). lia.
Qed.

(** C2, as the code has it: when msm_dma_buf_freed finds the meta of the
    buffer, no map of the buffer is reachable from the tree afterwards,
    whatever the counts were, and the meta's count is decremented once.
    The meta is erased from the tree and freed when that decrement
    reaches 0; otherwise it stays in the tree with an empty list of maps
    and is not freed. *)
Theorem buf_freed_drains (buf : Z) (st : state) i meta :
  cache_inv st →
  msm_iommu_meta_lookup buf (iommu_root st) = Some (i, meta) →
  let st' := msm_dma_buf_freed buf st in
  let drained := trace st ++ (drain_freed (maps meta) ≫= unmap_and_free) in
  (∀ meta', meta' ∈ iommu_root st' → buffer meta' = buf → maps meta' = []) ∧
  (atomic_dec_return (meta_refcount meta) = 0 →
   iommu_root st' = delete i (iommu_root st) ∧
   msm_iommu_meta_lookup buf (iommu_root st') = None ∧
   trace st' = drained ++ [Ev_kfree_meta (released_meta meta [])]) ∧
  (atomic_dec_return (meta_refcount meta) ≠ 0 →
   iommu_root st' = <[i := released_meta meta []]> (iommu_root st) ∧
   msm_iommu_meta_lookup buf (iommu_root st')
     = Some (i, released_meta meta []) ∧
   trace st' = drained).
Proof.
  intros [Hs _] Hmeta st' drained. subst st'.
  rewrite (buf_freed_found _ _ _ _ Hmeta). fold drained.
  pose proof Hmeta as [Hi Hb]%meta_lookup_Some.
  unfold put_result. simpl.
  destruct (decide (atomic_dec_return (meta_refcount meta) = 0)) as [Hz|Hz];
    simpl.
  - pose proof (meta_lookup_delete_None _ _ _ Hs Hi) as Hgone.
    rewrite Hb in Hgone. split_and!; [|done..].
    intros meta' Hin Hb'. apply meta_lookup_None in Hgone.
    destruct Hgone. apply list_elem_of_fmap. by exists meta'.
  - split_and!; [|done|].
    + intros meta' (k & Hk)%list_elem_of_lookup Hb'.
      destruct (decide (k = i)) as [->|Hne].
      * rewrite list_lookup_insert_eq in Hk by by eapply lookup_lt_Some.
        by simplify_eq.
      * rewrite list_lookup_insert_ne in Hk by done.
        destruct Hne.
        eapply (root_sorted_key_unique _ _ _ _ _ Hs Hk Hi). congruence.
    + intros _. split_and!; [done| |done].
      by eapply meta_lookup_insert_found.
Qed.

Lemma buf_freed_drains_witness :
  (cache_inv st_lazy ∧
   msm_iommu_meta_lookup 100 (iommu_root st_lazy)
     = Some (0%nat, mk_meta [sample_map 2] 2 100)) ∧
  (∀ meta', meta' ∈ iommu_root (msm_dma_buf_freed 100 st_lazy) →
            buffer meta' = 100 → maps meta' = []) ∧
  (atomic_dec_return 2 ≠ 0 →
   iommu_root (msm_dma_buf_freed 100 st_lazy) = [mk_meta [] 1 100] ∧
   msm_iommu_meta_lookup 100 (iommu_root (msm_dma_buf_freed 100 st_lazy))
     = Some (0%nat, mk_meta [] 1 100) ∧
   trace (msm_dma_buf_freed 100 st_lazy) = trace st_lazy ++ []).
Proof.
  assert (cache_inv st_lazy) as Hinv.
  { split; simpl.
    - unfold root_sorted; simpl. repeat constructor.
    - constructor; [|constructor].
      unfold maps_unique; simpl. apply NoDup_singleton. }
  destruct (buf_freed_drains 100 st_lazy 0%nat (mk_meta [sample_map 2] 2 100)
              Hinv eq_refl) as (Hnone & _ & Hkeep).
  split; [by split|]. split; [exact Hnone|exact Hkeep].
Defined.

(** C2 as worded fails: on [st_lazy], where the buffer was mapped once and
    never unmapped, msm_dma_buf_freed leaves the meta in the tree, with
    count 1, and frees nothing. *)
Lemma buf_freed_counterexample :
  is_Some (msm_iommu_meta_lookup 100 (iommu_root st_lazy)) ∧
  ¬ drained_as_claimed 100 st_lazy.
Proof.
  split; [by eexists|].
  intros [Hnone _]. vm_compute in Hnone. discriminate Hnone.
Qed.

(** C3, as the code has it: msm_dma_buf_freed takes every map off the
    meta's list, but only the maps whose count reached 0 go to the side
    list.  The calls it makes are dma_unmap_sg and kfree for exactly those
    maps, in list order, followed by the kfree of the meta when its count
    reached 0.  A map whose count is not 0 after the decrement is unlinked
    and nothing more: no dma_unmap_sg, no kfree. *)
Theorem buf_freed_unmaps_only_released (buf : Z) (st : state) i meta :
  msm_iommu_meta_lookup buf (iommu_root st) = Some (i, meta) →
  let st' := msm_dma_buf_freed buf st in
  buf_freed_scan (maps meta) [] = ([], drain_freed (maps meta)) ∧
  (∀ map, map ∈ drain_freed (maps meta) ↔
          ∃ map0, map0 ∈ maps meta ∧ map = map_put map0 ∧
                  atomic_dec_and_test (map_refcount map0) = true) ∧
  (∃ tail,
     trace st' =
       (trace st ++ (drain_freed (maps meta) ≫= unmap_and_free)) ++ tail ∧
     (tail = [] ∨ tail = [Ev_kfree_meta (released_meta meta [])])) ∧
  (Forall (λ map, atomic_dec_and_test (map_refcount map) = false) (maps meta) →
   ∃ tail,
     trace st' = trace st ++ tail ∧
     (tail = [] ∨ tail = [Ev_kfree_meta (released_meta meta [])])).
Proof.
  intros Hmeta st'. subst st'.
  rewrite (buf_freed_found _ _ _ _ Hmeta).
  assert (∃ tail,
     trace (put_result i (released_meta meta []) (iommu_root st)
              (trace st ++ (drain_freed (maps meta) ≫= unmap_and_free))) =
       (trace st ++ (drain_freed (maps meta) ≫= unmap_and_free)) ++ tail ∧
     (tail = [] ∨ tail = [Ev_kfree_meta (released_meta meta [])])) as Htail.
  { unfold put_result.
    destruct (decide (meta_refcount (released_meta meta []) = 0)); simpl.
    - eexists. split; [done|]. by right.
    - exists []. split; [by rewrite app_nil_r|]. by left. }
  split_and!.
  - by rewrite buf_freed_scan_spec.
  - intros map. unfold drain_freed.
    rewrite list_elem_of_fmap. split.
    + intros (map0 & -> & [Hz Hin]%list_elem_of_filter).
      exists map0. split_and!; [done..|]. by destruct (atomic_dec_and_test _).
    + intros (map0 & Hin & -> & Hz). exists map0. split; [done|].
      apply list_elem_of_filter. split; [by rewrite Hz|done].
  - exact Htail.
  - intros Hall.
    assert (drain_freed (maps meta) = []) as Hnil.
    { unfold drain_freed. clear -Hall.
      induction Hall as [|map l Hz Hall IH]; [done|].
      rewrite filter_cons_False by (rewrite Hz; simpl; tauto). exact IH. }
    rewrite Hnil in Htail |- *. simpl in Htail |- *.
    by rewrite app_nil_r in Htail |- *.
Qed.

Lemma buf_freed_unmaps_only_released_witness :
  msm_iommu_meta_lookup 100 (iommu_root st_lazy)
    = Some (0%nat, mk_meta [sample_map 2] 2 100) ∧
  buf_freed_scan [sample_map 2] [] = ([], []) ∧
  trace (msm_dma_buf_freed 100 st_lazy) = trace st_lazy.
Proof.
  destruct (buf_freed_unmaps_only_released 100 st_lazy 0%nat
              (mk_meta [sample_map 2] 2 100) eq_refl)
    as (Hscan & _ & _ & _).
  split; [reflexivity|]. split; [exact Hscan|reflexivity].
Defined.

(** C3 as worded fails: on [st_lazy] the map of device 10 has count 2, so
    it is still above 0 after the decrement; msm_dma_buf_freed unlinks it
    and makes no call at all. *)
Lemma forced_unmap_counterexample :
  ¬ forced_unmap_as_claimed 100 st_lazy.
Proof.
  intros Hclaim.
  destruct (Hclaim 0%nat (mk_meta [sample_map 2] 2 100) (sample_map 2))
    as [Hin _]; [reflexivity|apply list_elem_of_here|reflexivity|].
  vm_compute in Hin. by apply elem_of_nil in Hin.
Qed.

(** ** The count of a meta *)

Lemma new_events_app st st' evs :
  trace st' = trace st ++ evs → new_events st st' = evs.
Proof. unfold new_events. intros ->. by rewrite drop_app_length. Qed.

Lemma put_result_discipline i meta l st evs :
  (∀ m, Ev_kfree_meta m ∉ evs) →
  meta_put_discipline i meta st
    (put_result i (released_meta meta l) (iommu_root st) (trace st ++ evs)).
Proof.
  intros Hevs. unfold meta_put_discipline, put_result. simpl.
  destruct (decide (atomic_dec_return (meta_refcount meta) = 0)) as [Hz|Hz];
    simpl; (split; [intros Hz'|intros Hz']); try done.
  - split; [done|]. eexists. split; [apply last_snoc|]. done.
  - split; [by eexists|].
    intros m. by erewrite new_events_app.
Qed.

Lemma unmap_and_free_no_meta map m : Ev_kfree_meta m ∉ unmap_and_free map.
Proof.
  unfold unmap_and_free. intros Hin.
  apply elem_of_cons in Hin as [?|Hin]; [done|].
  apply elem_of_cons in Hin as [?|Hin]; [done|].
  by apply elem_of_nil in Hin.
Qed.

Lemma drained_no_meta (l : list msm_iommu_map) m :
  Ev_kfree_meta m ∉ l ≫= unmap_and_free.
Proof.
  intros (map & Hin & _)%list_elem_of_bind.
  by apply unmap_and_free_no_meta in Hin.
Qed.

(** C4, as the code has it.  The count of a meta is
    - put through one atomic_inc by a map call that finds the meta, and
      seeded with 2 - not_lazy by a map call that creates it;
    - decremented once by msm_dma_unmap_sg when the call finds the meta and
      a map of the device, and left alone, with the whole state, when it
      finds no such map;
    - decremented once by msm_dma_buf_freed when it finds the meta;
    - never changed by msm_dma_unmap_all_for_dev, which erases no meta and
      frees none.
    At each of the decrements the meta is erased from the tree and freed
    when the count reaches 0, and only then. *)
Theorem meta_refcount_discipline `{Platform} :
  (∀ fuel d sg n dr buf attrs st st' sg' r,
     msm_dma_map_sg_attrs fuel d sg n dr buf attrs st = Some (st', sg', r) →
     match msm_iommu_meta_lookup buf (iommu_root st) with
     | Some (i, meta) =>
         ∃ meta', msm_iommu_meta_lookup buf (iommu_root st') = Some (i, meta') ∧
                  meta_refcount meta' = atomic_inc (meta_refcount meta)
     | None =>
         ∃ i meta', msm_iommu_meta_lookup buf (iommu_root st') = Some (i, meta') ∧
                    meta_refcount meta' =
                      2 - dma_get_attr DMA_ATTR_NO_DELAYED_UNMAP attrs
     end) ∧
  (∀ d buf st,
     match msm_iommu_meta_lookup buf (iommu_root st) with
     | Some (i, meta) =>
         match msm_iommu_map_lookup meta d with
         | Some _ => meta_put_discipline i meta st (msm_dma_unmap_sg d buf st)
         | None => msm_dma_unmap_sg d buf st = st
         end
     | None => msm_dma_unmap_sg d buf st = st
     end) ∧
  (∀ buf st,
     match msm_iommu_meta_lookup buf (iommu_root st) with
     | Some (i, meta) => meta_put_discipline i meta st (msm_dma_buf_freed buf st)
     | None => msm_dma_buf_freed buf st = st
     end) ∧
  (∀ d st,
     let st' := (msm_dma_unmap_all_for_dev d st).1 in
     meta_refcount <$> iommu_root st' = meta_refcount <$> iommu_root st ∧
     buffer <$> iommu_root st' = buffer <$> iommu_root st ∧
     ∀ m, Ev_kfree_meta m ∉ new_events st st').
Proof.
  split_and!.
  - intros fuel d sg n dr buf attrs st st' sg' r [_ Hcase]%map_inv.
    destruct Hcase as [i meta j map Hmeta Hmap
                      |i meta tr1 tr2 sg2 Hmeta Hmap _ _
                      |tr0 tr1 tr2 sg2 Hmeta _ _ _]; rewrite Hmeta;
      cbn [iommu_root emit set_root].
    + exists (reused_meta meta j map). split; [|reflexivity].
      eapply meta_lookup_insert_found; [exact Hmeta|].
      cbn [buffer reused_meta]. by apply meta_lookup_Some in Hmeta as [_ ?].
    + eexists (extended_meta meta _). split; [|reflexivity].
      eapply meta_lookup_insert_found; [exact Hmeta|].
      cbn [buffer extended_meta]. by apply meta_lookup_Some in Hmeta as [_ ?].
    + set (seed := 2 - dma_get_attr DMA_ATTR_NO_DELAYED_UNMAP attrs).
      exists (msm_iommu_meta_pos buf (iommu_root st)),
             (mk_meta [created_map d dr n seed sg2] seed buf).
      split; [|done].
      by apply (meta_add_lookup (mk_meta [created_map d dr n seed sg2] seed buf)).
  - intros d buf st.
    destruct (msm_iommu_meta_lookup buf (iommu_root st)) as [[i meta]|] eqn:Hmeta;
      [|by apply unmap_sg_no_meta].
    destruct (msm_iommu_map_lookup meta d) as [[j map]|] eqn:Hmap;
      [|by eapply unmap_sg_no_map].
    rewrite (unmap_sg_found _ _ _ _ _ _ _ Hmeta Hmap).
    destruct (atomic_dec_and_test (map_refcount map)).
    + apply put_result_discipline. intros m. apply unmap_and_free_no_meta.
    + rewrite <-(app_nil_r (trace st)) at 1.
      apply put_result_discipline. intros m. apply not_elem_of_nil.
  - intros buf st.
    destruct (msm_iommu_meta_lookup buf (iommu_root st)) as [[i meta]|] eqn:Hmeta;
      [|by unfold msm_dma_buf_freed; rewrite Hmeta].
    rewrite (buf_freed_found _ _ _ _ Hmeta).
    apply put_result_discipline. intros m. apply drained_no_meta.
  - intros d st. rewrite unmap_all_for_dev_spec. simpl. split_and!.
    + rewrite <-list_fmap_compose. by apply list_fmap_ext.
    + rewrite <-list_fmap_compose. by apply list_fmap_ext.
    + intros m. erewrite new_events_app; [|done]. apply drained_no_meta.
Qed.

Lemma meta_refcount_discipline_witness :
  meta_put_discipline 0 (mk_meta [sample_map 1] 1 100) st_eager
                      (msm_dma_unmap_sg 10 100 st_eager) ∧
  meta_put_discipline 0 (mk_meta [sample_map 2] 2 100) st_lazy
                      (msm_dma_buf_freed 100 st_lazy) ∧
  meta_refcount <$> iommu_root (msm_dma_unmap_all_for_dev 10 st_eager).1
    = [1].
Proof.
  destruct (meta_refcount_discipline (H := sample_platform))
    as (_ & Hunmap & Hfreed & Hsweep).
  split_and!.
  - exact (Hunmap 10 100 st_eager).
  - exact (Hfreed 100 st_lazy).
  - exact (proj1 (Hsweep 10 st_eager)).
Defined.

(** C4 as worded fails: on [st_eager] the device sweep finds the meta of
    buffer 100 and the map of device 10, unmaps and frees the map, and
    leaves the meta in the tree with its count still 1. *)
Lemma sweep_put_counterexample :
  ¬ sweep_puts_meta_as_claimed 10 st_eager.
Proof.
  intros Hclaim.
  specialize (Hclaim 0%nat (mk_meta [sample_map 1] 1 100) (sample_map 1)
                     eq_refl (list_elem_of_here _ _) eq_refl).
  apply Hclaim. vm_compute. apply list_elem_of_here.
Qed.

Lemma unmap_all_for_dev_reports_witness :
  (msm_dma_unmap_all_for_dev 10 st_lazy).2 = - EINVAL ∧
  survives_sweep 10 st_lazy ∧
  (msm_dma_unmap_all_for_dev 10 st_eager).2 = 0 ∧
  iommu_root (msm_dma_unmap_all_for_dev 10 st_eager).1 = [mk_meta [] 1 100].
Proof.
  destruct (unmap_all_for_dev_reports 10 st_lazy) as (Hret & _).
  destruct (unmap_all_for_dev_reports 10 st_eager) as (_ & _ & Hroot & _).
  split_and!; [reflexivity| |reflexivity|exact Hroot].
  apply Hret. vm_compute. discriminate.
Defined.

(** * Further properties of the code *)

(** ** The tree: insertion and search *)

Lemma meta_add_split new_meta root :
  msm_iommu_meta_add new_meta root =
  take (msm_iommu_meta_pos (buffer new_meta) root) root ++
  new_meta :: drop (msm_iommu_meta_pos (buffer new_meta) root) root.
Proof.
  induction root as [|m root IH]; simpl; [done|].
  destruct (buffer new_meta <? buffer m); simpl; [done|]. by rewrite IH.
Qed.

Lemma meta_pos_before new_buffer root :
  Forall (λ m, buffer m ≤ new_buffer)
         (take (msm_iommu_meta_pos new_buffer root) root).
Proof.
  induction root as [|m root IH]; simpl; [constructor|].
  destruct (Z.ltb_spec new_buffer (buffer m)); simpl; constructor; [lia|done].
Qed.

Lemma meta_pos_after new_buffer root :
  root_ordered root →
  Forall (λ m, new_buffer < buffer m)
         (drop (msm_iommu_meta_pos new_buffer root) root).
Proof.
  unfold root_ordered.
  induction root as [|m root IH]; intros Hs; [constructor|].
  rewrite fmap_cons in Hs. apply StronglySorted_cons in Hs as [Hall Hs].
  cbn [msm_iommu_meta_pos].
  destruct (Z.ltb_spec new_buffer (buffer m)) as [Hlt|Hge]; cbn [drop].
  - constructor; [done|].
    rewrite Forall_fmap in Hall. eapply Forall_impl; [exact Hall|].
    simpl; intros; lia.
  - by apply IH.
Qed.

(** X1: msm_iommu_meta_add links the new meta at one place of a tree
    whose keys are in order, and moves nothing else: every node before it
    has a key not above the new key (a node with an equal key stays in
    front), every node after it has a larger key, and the keys of the
    result are in order again. *)
Theorem meta_add_keeps_order (new_meta : msm_iommu_meta)
    (root : list msm_iommu_meta) :
  root_ordered root →
  let p := msm_iommu_meta_pos (buffer new_meta) root in
  msm_iommu_meta_add new_meta root = take p root ++ new_meta :: drop p root ∧
  Forall (λ m, buffer m ≤ buffer new_meta) (take p root) ∧
  Forall (λ m, buffer new_meta < buffer m) (drop p root) ∧
  root_ordered (msm_iommu_meta_add new_meta root).
Proof.
  intros Hs p.
  pose proof (meta_pos_before (buffer new_meta) root) as Hbefore.
  pose proof (meta_pos_after (buffer new_meta) root Hs) as Hafter.
  split_and!; [apply meta_add_split|done|done|].
  rewrite meta_add_split. fold p. unfold root_ordered in *.
  rewrite <-(take_drop p root) in Hs.
  rewrite fmap_app in Hs. apply StronglySorted_app in Hs as (Hcross & H1 & H2).
  rewrite fmap_app, fmap_cons. apply StronglySorted_app. split_and!.
  - intros x1 x2 (m1 & -> & Hm1)%list_elem_of_fmap Hx2.
    apply elem_of_cons in Hx2 as [->|Hx2].
    + rewrite Forall_forall in Hbefore. by apply Hbefore.
    + apply Hcross; [|done]. apply list_elem_of_fmap. by exists m1.
  - done.
  - apply StronglySorted_cons. split; [|done].
    rewrite Forall_fmap. eapply Forall_impl; [exact Hafter|].
    simpl; intros; lia.
Qed.

Lemma meta_add_keeps_order_witness :
  root_ordered (iommu_root st_lazy) ∧
  msm_iommu_meta_add (mk_meta [] 1 100) (iommu_root st_lazy)
    = [mk_meta [sample_map 2] 2 100; mk_meta [] 1 100] ∧
  root_ordered (msm_iommu_meta_add (mk_meta [] 1 100) (iommu_root st_lazy)).
Proof.
  assert (root_ordered (iommu_root st_lazy)) as Hs.
  { unfold root_ordered; simpl. repeat constructor. }
  destruct (meta_add_keeps_order (mk_meta [] 1 100) (iommu_root st_lazy) Hs)
    as (Hsplit & _ & _ & Hord).
  split; [exact Hs|]. split; [exact Hsplit|exact Hord].
Defined.

Lemma snd_shift {A} (o : option (nat * A)) :
  snd <$> (prod_map S id <$> o) = snd <$> o.
Proof. by destruct o as [[? ?]|]. Qed.

Lemma meta_add_lookup_other new_meta root buf :
  buf ≠ buffer new_meta →
  snd <$> msm_iommu_meta_lookup buf (msm_iommu_meta_add new_meta root)
  = snd <$> msm_iommu_meta_lookup buf root.
Proof.
  intros Hne. unfold msm_iommu_meta_lookup.
  induction root as [|m root IH]; simpl.
  - by rewrite decide_False.
  - destruct (buffer new_meta <? buffer m); simpl.
    + rewrite (decide_False (P := buffer new_meta = buf)) by done.
      by rewrite snd_shift.
    + destruct (decide (buffer m = buf)); [done|].
      by rewrite !snd_shift.
Qed.

(** X2: a meta linked by msm_iommu_meta_add under a key the tree did not
    hold is what msm_iommu_meta_lookup returns for that key, and the search
    for any other key returns the record it returned before. *)
Theorem meta_add_then_lookup (new_meta : msm_iommu_meta)
    (root : list msm_iommu_meta) :
  msm_iommu_meta_lookup (buffer new_meta) root = None →
  msm_iommu_meta_lookup (buffer new_meta) (msm_iommu_meta_add new_meta root)
    = Some (msm_iommu_meta_pos (buffer new_meta) root, new_meta) ∧
  ∀ buf, buf ≠ buffer new_meta →
    snd <$> msm_iommu_meta_lookup buf (msm_iommu_meta_add new_meta root)
    = snd <$> msm_iommu_meta_lookup buf root.
Proof.
  intros Hfresh. split; [by apply meta_add_lookup|].
  intros buf Hne. by apply meta_add_lookup_other.
Qed.

Lemma meta_add_then_lookup_witness :
  msm_iommu_meta_lookup 50 (iommu_root st_lazy) = None ∧
  msm_iommu_meta_lookup 50 (msm_iommu_meta_add (mk_meta [] 1 50)
                                               (iommu_root st_lazy))
    = Some (0%nat, mk_meta [] 1 50) ∧
  snd <$> msm_iommu_meta_lookup 100 (msm_iommu_meta_add (mk_meta [] 1 50)
                                                        (iommu_root st_lazy))
    = snd <$> msm_iommu_meta_lookup 100 (iommu_root st_lazy).
Proof.
  destruct (meta_add_then_lookup (mk_meta [] 1 50) (iommu_root st_lazy)
              eq_refl) as [Hfound Hother].
  split; [reflexivity|]. split; [exact Hfound|].
  apply Hother. discriminate.
Defined.

(** X3: after msm_iommu_map_add the new map is at the head of the meta's
    list, so msm_iommu_map_lookup returns it for its device even when an
    older map of that device is linked; for every other device the search
    returns the map it returned before, one place further; the counts and
    key of the meta and all other metas are as before. *)
Theorem map_add_then_lookup (i : nat) (map : msm_iommu_map)
    (meta : msm_iommu_meta) (root : list msm_iommu_meta) :
  root !! i = Some meta →
  let meta' := meta_set_maps (map :: maps meta) meta in
  msm_iommu_map_add i map root = <[i := meta']> root ∧
  msm_iommu_map_lookup meta' (dev map) = Some (0%nat, map) ∧
  (∀ d, d ≠ dev map →
        msm_iommu_map_lookup meta' d
        = prod_map S id <$> msm_iommu_map_lookup meta d) ∧
  (∀ k, k ≠ i → msm_iommu_map_add i map root !! k = root !! k).
Proof.
  intros Hi meta'. unfold msm_iommu_map_add. split_and!.
  - by rewrite (alter_at _ _ _ _ Hi).
  - unfold msm_iommu_map_lookup; simpl. by rewrite decide_True.
  - intros d Hd. unfold msm_iommu_map_lookup; simpl.
    by rewrite decide_False.
  - intros k Hk. by rewrite list_lookup_alter_ne.
Qed.

Lemma map_add_then_lookup_witness :
  iommu_root st_lazy !! 0%nat = Some (mk_meta [sample_map 2] 2 100) ∧
  msm_iommu_map_add 0 (sample_map 1) (iommu_root st_lazy)
    = [mk_meta [sample_map 1; sample_map 2] 2 100] ∧
  msm_iommu_map_lookup (mk_meta [sample_map 1; sample_map 2] 2 100) 10
    = Some (0%nat, sample_map 1).
Proof.
  destruct (map_add_then_lookup 0 (sample_map 1)
              (mk_meta [sample_map 2] 2 100) (iommu_root st_lazy) eq_refl)
    as (Hadd & Hlook & _).
  split; [reflexivity|]. split; [exact Hadd|exact Hlook].
Defined.

(** ** The retry loops and the calls a map call makes *)

Section Retry.
Context `{P : Platform}.

Lemma kmalloc_retry_events fuel k tr tr' :
  kmalloc_retry fuel k tr = Some tr' →
  ∃ n, (n < fuel)%nat ∧
       tr' = tr ++ replicate n (Ev_kmalloc k false) ++ [Ev_kmalloc k true].
Proof.
  revert tr. induction fuel as [|fuel IH]; intros tr Hrun; [done|].
  simpl in Hrun. destruct (kmalloc tr k) eqn:Hok.
  - exists 0%nat. split; [lia|]. by simplify_eq.
  - apply IH in Hrun as (n & Hn & ->). exists (S n). split; [lia|].
    by rewrite <-(assoc_L (++)).
Qed.

Lemma dma_map_retry_events fuel d sg n dr attrs tr tr' sg' :
  dma_map_retry fuel d sg n dr attrs tr = Some (tr', sg') →
  ∃ m ret, (m < fuel)%nat ∧ ret ≠ 0 ∧
    tr' = tr ++ replicate m (Ev_dma_map_sg_attrs d n dr attrs 0) ++
          [Ev_dma_map_sg_attrs d n dr attrs ret].
Proof.
  revert sg tr. induction fuel as [|fuel IH]; intros sg tr Hrun; [done|].
  simpl in Hrun.
  destruct (dma_map_sg_attrs tr d sg n dr attrs) as [sg1 ret].
  destruct (Z.eqb_spec ret 0) as [Hz|Hret]; simpl in Hrun.
  - subst ret. apply IH in Hrun as (m & ret' & Hm & Hret' & ->).
    exists (S m), ret'. split; [lia|]. split; [done|].
    by rewrite <-(assoc_L (++)).
  - exists 0%nat, ret. split; [lia|]. split; [done|]. by simplify_eq.
Qed.

Lemma filter_success_failures e n (l : list event) :
  is_success e = false →
  filter (λ e, is_success e) (replicate n e ++ l)
  = filter (λ e, is_success e) l.
Proof.
  intros He. induction n as [|n IH]; [done|].
  simpl. rewrite filter_cons_False by (rewrite He; simpl; tauto). exact IH.
Qed.

Lemma filter_success_step e s n (l : list event) :
  is_success e = false → is_success s = true →
  filter (λ e, is_success e) (replicate n e ++ s :: l)
  = s :: filter (λ e, is_success e) l.
Proof.
  intros He Hs. rewrite filter_success_failures by done.
  by rewrite filter_cons_True by by rewrite Hs.
Qed.

Lemma filter_success_kmalloc k n :
  filter (λ e, is_success e)
         (replicate n (Ev_kmalloc k false) ++ [Ev_kmalloc k true])
  = [Ev_kmalloc k true].
Proof. by rewrite filter_success_failures. Qed.

Lemma filter_success_mapping d n dr attrs m ret :
  ret ≠ 0 →
  filter (λ e, is_success e)
         (replicate m (Ev_dma_map_sg_attrs d n dr attrs 0) ++
          [Ev_dma_map_sg_attrs d n dr attrs ret])
  = [Ev_dma_map_sg_attrs d n dr attrs ret].
Proof.
  intros Hret. rewrite filter_success_failures by done.
  rewrite filter_cons_True; [done|].
  simpl. by rewrite (proj2 (Z.eqb_neq _ _) Hret).
Qed.

End Retry.

(** X4: a retry loop that is left has called its function again after
    every failure and stopped at the first success: the calls it made are
    some failed attempts, fewer than the bound, followed by one successful
    attempt, for kmalloc and for dma_map_sg_attrs alike. *)
Theorem retry_until_success `{Platform} :
  (∀ fuel k tr tr',
     kmalloc_retry fuel k tr = Some tr' →
     ∃ n, (n < fuel)%nat ∧
          tr' = tr ++ replicate n (Ev_kmalloc k false) ++ [Ev_kmalloc k true]) ∧
  (∀ fuel d sg n dr attrs tr tr' sg',
     dma_map_retry fuel d sg n dr attrs tr = Some (tr', sg') →
     ∃ m ret, (m < fuel)%nat ∧ ret ≠ 0 ∧
       tr' = tr ++ replicate m (Ev_dma_map_sg_attrs d n dr attrs 0) ++
             [Ev_dma_map_sg_attrs d n dr attrs ret]).
Proof.
  split.
  - intros fuel k tr tr'. apply kmalloc_retry_events.
  - intros fuel d sg n dr attrs tr tr' sg'. apply dma_map_retry_events.
Qed.

Lemma retry_until_success_witness :
  kmalloc_retry (P := sample_platform) 2 ALLOC_META []
    = Some [Ev_kmalloc ALLOC_META false; Ev_kmalloc ALLOC_META true] ∧
  ∃ n, (n < 2)%nat ∧
       [Ev_kmalloc ALLOC_META false; Ev_kmalloc ALLOC_META true]
       = [] ++ replicate n (Ev_kmalloc ALLOC_META false) ++
         [Ev_kmalloc ALLOC_META true].
Proof.
  split; [reflexivity|].
  exact (proj1 (retry_until_success (H := sample_platform))
               2%nat ALLOC_META [] _ eq_refl).
Defined.

(** X5: a map call that returns allocates exactly the records it links
    and maps exactly once per new map.  For a buffer without meta its
    successful outside calls are one kmalloc for the meta, one kmalloc for
    the map and one dma_map_sg_attrs, in this order; for a known buffer
    without a map of the device, one kmalloc for the map and one
    dma_map_sg_attrs; on reuse it makes no call but the barrier. *)
Theorem map_successful_calls `{Platform} fuel d sg n dr buf attrs st
    st' sg' r :
  msm_dma_map_sg_attrs fuel d sg n dr buf attrs st = Some (st', sg', r) →
  ∃ evs,
    trace st' = trace st ++ evs ∧
    match msm_iommu_meta_lookup buf (iommu_root st) with
    | None =>
        ∃ ret, ret ≠ 0 ∧
          filter (λ e, is_success e) evs =
            [Ev_kmalloc ALLOC_META true; Ev_kmalloc ALLOC_MAP true;
             Ev_dma_map_sg_attrs d n dr attrs ret]
    | Some (_, meta) =>
        match msm_iommu_map_lookup meta d with
        | None =>
            ∃ ret, ret ≠ 0 ∧
              filter (λ e, is_success e) evs =
                [Ev_kmalloc ALLOC_MAP true;
                 Ev_dma_map_sg_attrs d n dr attrs ret]
        | Some _ => evs = barrier d
        end
    end.
Proof.
  intros [_ Hcase]%map_inv.
  destruct Hcase as [i meta j map Hmeta Hmap
                    |i meta tr1 tr2 sg2 Hmeta Hmap Hk Hm
                    |tr0 tr1 tr2 sg2 Hmeta Hk0 Hk Hm];
    rewrite Hmeta; try rewrite Hmap; cbn [trace emit set_root].
  - by exists (barrier d).
  - apply kmalloc_retry_events in Hk as (a & _ & ->).
    apply dma_map_retry_events in Hm as (m & ret & _ & Hret & ->).
    eexists. split; [by rewrite <-(assoc_L (++))|].
    exists ret. split; [done|]. rewrite <-?(assoc_L (++)). cbn [app].
    rewrite filter_success_step by done.
    by rewrite filter_success_mapping.
  - apply kmalloc_retry_events in Hk0 as (a0 & _ & ->).
    apply kmalloc_retry_events in Hk as (a & _ & ->).
    apply dma_map_retry_events in Hm as (m & ret & _ & Hret & ->).
    eexists. split; [by rewrite <-!(assoc_L (++))|].
    exists ret. split; [done|]. rewrite <-?(assoc_L (++)). cbn [app].
    rewrite !filter_success_step by done.
    by rewrite filter_success_mapping.
Qed.

Lemma map_successful_calls_witness :
  msm_dma_map_sg_attrs (P := sample_platform) 2 10 sample_sg 1
                       DMA_TO_DEVICE 100 None empty_state
    = Some (st_lazy, sample_sgl, 1) ∧
  ∃ evs,
    trace st_lazy = trace empty_state ++ evs ∧
    ∃ ret, ret ≠ 0 ∧
      filter (λ e, is_success e) evs =
        [Ev_kmalloc ALLOC_META true; Ev_kmalloc ALLOC_MAP true;
         Ev_dma_map_sg_attrs 10 1 DMA_TO_DEVICE None ret].
Proof.
  split; [reflexivity|].
  exact (map_successful_calls (H := sample_platform) 2%nat 10 sample_sg 1
           DMA_TO_DEVICE 100 None empty_state st_lazy sample_sgl 1 eq_refl).
Defined.

(** ** Balanced use of one cached mapping *)

Lemma map_set_refcount_same map :
  map_set_refcount (map_refcount map) map = map.
Proof. by destruct map. Qed.

Lemma map_set_refcount_twice r r' map :
  map_set_refcount r' (map_set_refcount r map) = map_set_refcount r' map.
Proof. done. Qed.

Lemma meta_bump_0 meta j map :
  maps meta !! j = Some map → meta_bump 0 meta j map = meta.
Proof.
  intros Hj. unfold meta_bump. rewrite !Z.add_0_r, map_set_refcount_same.
  rewrite list_insert_id by done. by destruct meta.
Qed.

Lemma meta_bump_lookup k meta d j map :
  msm_iommu_map_lookup meta d = Some (j, map) →
  msm_iommu_map_lookup (meta_bump k meta j map) d
  = Some (j, map_set_refcount (map_refcount map + k) map).
Proof.
  intros Hmap. unfold msm_iommu_map_lookup; simpl.
  eapply list_find_insert_found; [exact Hmap|].
  by apply map_lookup_Some in Hmap as [_ Hd].
Qed.

Lemma meta_bump_bump k k' meta j map :
  meta_bump k' (meta_bump k meta j map) j
            (map_set_refcount (map_refcount map + k) map)
  = meta_bump (k + k') meta j map.
Proof.
  unfold meta_bump; simpl. rewrite list_insert_insert_eq.
  rewrite map_set_refcount_twice. by rewrite !Z.add_assoc.
Qed.

Section Balance.
Context `{P : Platform}.

Lemma map_times_hits fuel k d sg n dr buf attrs st i meta j map :
  msm_iommu_meta_lookup buf (iommu_root st) = Some (i, meta) →
  msm_iommu_map_lookup meta d = Some (j, map) →
  INT_MIN ≤ meta_refcount meta → meta_refcount meta + Z.of_nat k ≤ INT_MAX →
  INT_MIN ≤ map_refcount map → map_refcount map + Z.of_nat k ≤ INT_MAX →
  map_times fuel k d sg n dr buf attrs st =
  Some {| iommu_root :=
            <[i := meta_bump (Z.of_nat k) meta j map]> (iommu_root st);
          trace := trace st ++ mjoin (replicate k (barrier d)) |}.
Proof.
  revert st meta map.
  induction k as [|k IH]; intros st meta map Hmeta Hmap Hlo Hhi Hlo' Hhi'.
  - simpl. pose proof Hmeta as [Hi _]%meta_lookup_Some.
    pose proof Hmap as [Hj _]%map_lookup_Some.
    rewrite meta_bump_0, list_insert_id, app_nil_r by done. by destruct st.
  - cbn [map_times].
    rewrite (map_hit _ _ _ _ _ _ _ _ _ _ _ _ Hmeta Hmap). simpl.
    assert (reused_meta meta j map = meta_bump 1 meta j map) as Hbump.
    { unfold reused_meta, meta_bump.
      by rewrite !atomic_inc_succ by lia. }
    rewrite Hbump.
    rewrite (IH _ (meta_bump 1 meta j map)
                (map_set_refcount (map_refcount map + 1) map)); cycle 1.
    + simpl. eapply meta_lookup_insert_found; [exact Hmeta|].
      simpl. by apply meta_lookup_Some in Hmeta as [_ ?].
    + by apply meta_bump_lookup.
    + simpl. lia.
    + simpl. lia.
    + simpl. lia.
    + simpl. lia.
    + simpl. rewrite list_insert_insert_eq, meta_bump_bump.
      rewrite <-(assoc_L (++)).
      by replace (1 + Z.of_nat k) with (Z.of_nat (S k)) by lia.
Qed.

End Balance.

Lemma unmap_times_keeps d buf k st i meta j map :
  msm_iommu_meta_lookup buf (iommu_root st) = Some (i, meta) →
  msm_iommu_map_lookup meta d = Some (j, map) →
  Z.of_nat k < meta_refcount meta ≤ INT_MAX →
  Z.of_nat k < map_refcount map ≤ INT_MAX →
  Nat.iter k (msm_dma_unmap_sg d buf) st =
  {| iommu_root := <[i := meta_bump (- Z.of_nat k) meta j map]> (iommu_root st);
     trace := trace st |}.
Proof.
  intros Hmeta Hmap.
  pose proof Hmeta as [Hi Hb]%meta_lookup_Some.
  pose proof Hmap as [Hj _]%map_lookup_Some.
  induction k as [|k IH]; intros Hr Hr'.
  - simpl. rewrite meta_bump_0, list_insert_id by done. by destruct st.
  - rewrite Nat.iter_succ, IH by lia.
    set (metak := meta_bump (- Z.of_nat k) meta j map).
    set (mapk := map_set_refcount (map_refcount map + - Z.of_nat k) map).
    rewrite (unmap_sg_found d buf _ i metak j mapk); cycle 1.
    + simpl. by eapply meta_lookup_insert_found.
    + by apply meta_bump_lookup.
    + assert (atomic_dec_return (map_refcount mapk)
              = map_refcount map + - Z.of_nat (S k)) as Hdec.
      { unfold mapk; simpl. rewrite atomic_dec_return_pred; [lia|].
        unfold INT_MIN, INT_MAX in *. lia. }
      assert (atomic_dec_return (meta_refcount metak)
              = meta_refcount meta + - Z.of_nat (S k)) as Hdec'.
      { unfold metak; simpl. rewrite atomic_dec_return_pred; [lia|].
        unfold INT_MIN, INT_MAX in *. lia. }
      unfold atomic_dec_and_test. rewrite Hdec.
      rewrite (proj2 (Z.eqb_neq _ _)) by lia.
      unfold put_result, released_meta. cbn [meta_refcount iommu_root trace].
      rewrite Hdec'. rewrite decide_False by lia.
      rewrite list_insert_insert_eq. do 2 f_equal.
      unfold meta_bump, metak, map_put. cbn [maps buffer meta_bump].
      rewrite list_insert_insert_eq. rewrite Hdec. reflexivity.
Qed.

(** X6: reuse and release balance.  When the pair has a cached map with
    positive counts, [k] further map calls followed by [k] unmap calls
    leave the tree exactly as it was: the map calls raise the count of the
    meta and of the map by [k] and call nothing but the barrier, the unmap
    calls lower them again and unmap or free nothing (the counts staying
    within the range of an int). *)
Theorem map_unmap_balance `{Platform} fuel k d sg n dr buf attrs st
    i meta j map :
  msm_iommu_meta_lookup buf (iommu_root st) = Some (i, meta) →
  msm_iommu_map_lookup meta d = Some (j, map) →
  0 < meta_refcount meta → meta_refcount meta + Z.of_nat k ≤ INT_MAX →
  0 < map_refcount map → map_refcount map + Z.of_nat k ≤ INT_MAX →
  ∃ st_k,
    map_times fuel k d sg n dr buf attrs st = Some st_k ∧
    msm_iommu_meta_lookup buf (iommu_root st_k)
      = Some (i, meta_bump (Z.of_nat k) meta j map) ∧
    trace st_k = trace st ++ mjoin (replicate k (barrier d)) ∧
    iommu_root (Nat.iter k (msm_dma_unmap_sg d buf) st_k) = iommu_root st ∧
    trace (Nat.iter k (msm_dma_unmap_sg d buf) st_k) = trace st_k.
Proof.
  intros Hmeta Hmap Hlo Hhi Hlo' Hhi'.
  pose proof Hmeta as [Hi Hb]%meta_lookup_Some.
  pose proof Hmap as [Hj _]%map_lookup_Some.
  eexists. split.
  { apply map_times_hits; try done; unfold INT_MIN; lia. }
  assert (msm_iommu_meta_lookup buf
            (<[i := meta_bump (Z.of_nat k) meta j map]> (iommu_root st))
          = Some (i, meta_bump (Z.of_nat k) meta j map)) as Hmetak
    by by eapply meta_lookup_insert_found.
  split; [exact Hmetak|]. split; [done|].
  rewrite (unmap_times_keeps d buf k _ i (meta_bump (Z.of_nat k) meta j map) j
             (map_set_refcount (map_refcount map + Z.of_nat k) map));
    [|exact Hmetak|by apply meta_bump_lookup|simpl; lia|simpl; lia].
  split; [|done]. cbn [iommu_root].
  rewrite list_insert_insert_eq, meta_bump_bump.
  replace (Z.of_nat k + - Z.of_nat k) with 0 by lia.
  by rewrite meta_bump_0, list_insert_id.
Qed.

Lemma map_unmap_balance_witness :
  ∃ st_k,
    map_times (H := sample_platform) 0 3 10 sample_sg 1 DMA_TO_DEVICE 100
              None st_lazy = Some st_k ∧
    msm_iommu_meta_lookup 100 (iommu_root st_k)
      = Some (0%nat, meta_bump 3 (mk_meta [sample_map 2] 2 100) 0
                               (sample_map 2)) ∧
    iommu_root (Nat.iter 3 (msm_dma_unmap_sg 10 100) st_k)
      = iommu_root st_lazy.
Proof.
  destruct (map_unmap_balance (H := sample_platform) 0%nat 3%nat 10
              sample_sg 1 DMA_TO_DEVICE 100 None st_lazy 0%nat
              (mk_meta [sample_map 2] 2 100) 0%nat (sample_map 2)
              eq_refl eq_refl eq_refl
              (λ Hgt, match Hgt with eq_refl => I end)
              eq_refl
              (λ Hgt, match Hgt with eq_refl => I end))
    as (st_k & Hrun & Hlook & _ & Hroot & _).
  exists st_k. split; [exact Hrun|]. split; [exact Hlook|exact Hroot].
Defined.

Lemma buf_freed_last_reference buf root tr m :
  msm_iommu_meta_lookup buf root = None →
  map_refcount m = 1 →
  msm_dma_buf_freed buf
    {| iommu_root := msm_iommu_meta_add (mk_meta [m] 1 buf) root;
       trace := tr |}
  = {| iommu_root := root;
       trace := (tr ++ unmap_and_free (map_set_refcount 0 m)) ++
                [Ev_kfree_meta (mk_meta [] 0 buf)] |}.
Proof.
  intros Hfresh Hr.
  rewrite (buf_freed_found _ _ (msm_iommu_meta_pos buf root)
             (mk_meta [m] 1 buf));
    [|by apply (meta_add_lookup (mk_meta [m] 1 buf))].
  assert (drain_freed [m] = [map_set_refcount 0 m]) as Hdrain.
  { unfold drain_freed.
    rewrite filter_cons_True by (by rewrite Hr).
    rewrite fmap_cons. unfold map_put. rewrite Hr. reflexivity. }
  cbn [maps iommu_root trace]. rewrite Hdrain.
  unfold put_result, released_meta. cbn [meta_refcount maps buffer].
  change (atomic_dec_return 1) with 0. rewrite decide_True by done.
  by rewrite (meta_add_delete (mk_meta [m] 1 buf)).
Qed.

(** X7: the life of a lazily cached mapping.  On a cache without the
    buffer, a map call with DMA_ATTR_NO_DELAYED_UNMAP clear followed by the
    matching unmap call leaves the mapping cached with counts 1; the
    msm_dma_buf_freed of the buffer then passes the map to dma_unmap_sg,
    frees it, erases and frees the meta, and the tree is what it was before
    the map call. *)
Theorem lazy_map_unmap_freed `{Platform} fuel d sg n dr buf attrs st
    tr0 tr1 tr2 sg' :
  msm_iommu_meta_lookup buf (iommu_root st) = None →
  dma_get_attr DMA_ATTR_NO_DELAYED_UNMAP attrs = 0 →
  kmalloc_retry fuel ALLOC_META (trace st) = Some tr0 →
  kmalloc_retry fuel ALLOC_MAP tr0 = Some tr1 →
  dma_map_retry fuel d sg n dr attrs tr1 = Some (tr2, sg') →
  let map := created_map d dr n 2 sg' in
  ∃ st1,
    msm_dma_map_sg_attrs fuel d sg n dr buf attrs st = Some (st1, sg', n) ∧
    msm_dma_unmap_sg d buf st1 =
      {| iommu_root :=
           msm_iommu_meta_add (mk_meta [map_set_refcount 1 map] 1 buf)
                              (iommu_root st);
         trace := tr2 |} ∧
    msm_dma_buf_freed buf (msm_dma_unmap_sg d buf st1) =
      {| iommu_root := iommu_root st;
         trace := (tr2 ++ unmap_and_free (map_set_refcount 0 map)) ++
                  [Ev_kfree_meta (mk_meta [] 0 buf)] |}.
Proof.
  intros Hfresh Hclear Hk0 Hk Hm map.
  pose proof (map_miss_fresh fuel d sg n dr buf attrs st tr0 tr1 tr2 sg'
                Hfresh Hk0 Hk Hm) as Hfirst.
  simpl in Hfirst. rewrite Hclear in Hfirst. simpl in Hfirst.
  fold map in Hfirst.
  eexists. split; [exact Hfirst|].
  rewrite unmap_one_of_many by done.
  split; [done|].
  by rewrite buf_freed_last_reference.
Qed.

Lemma lazy_map_unmap_freed_witness :
  ∃ st1,
    msm_dma_map_sg_attrs (P := sample_platform) 2 10 sample_sg 1
                         DMA_TO_DEVICE 100 None empty_state
      = Some (st1, sample_sgl, 1) ∧
    msm_dma_buf_freed 100 (msm_dma_unmap_sg 10 100 st1) =
      {| iommu_root := [];
         trace := (sample_trace None ++ unmap_and_free (sample_map 0)) ++
                  [Ev_kfree_meta (mk_meta [] 0 100)] |}.
Proof.
  destruct (lazy_map_unmap_freed (H := sample_platform)
              2%nat 10 sample_sg 1 DMA_TO_DEVICE 100 None empty_state
              [Ev_kmalloc ALLOC_META false; Ev_kmalloc ALLOC_META true]
              [Ev_kmalloc ALLOC_META false; Ev_kmalloc ALLOC_META true;
               Ev_kmalloc ALLOC_MAP false; Ev_kmalloc ALLOC_MAP true]
              (sample_trace None) sample_sgl
              eq_refl eq_refl eq_refl eq_refl eq_refl)
    as (st1 & Hrun & _ & Hfreed).
  exists st1. split; [exact Hrun|exact Hfreed].
Defined.

(** ** More on the device sweep *)

Lemma sweep_absent d l :
  Forall (λ map, dev map ≠ d) l →
  sweep_kept d l = l ∧ sweep_freed d l = [] ∧ ¬ sweep_fails d l.
Proof.
  induction 1 as [|map l Hd Hall (IH1 & IH2 & IH3)].
  - split_and!; [done..|]. unfold sweep_fails. by intros ?%Exists_nil.
  - rewrite sweep_kept_cons, sweep_freed_cons, sweep_fails_cons.
    rewrite !(decide_False (P := dev map = d)) by done.
    rewrite IH1. split_and!; [done..|]. intros [[? _]|?]; done.
Qed.

Lemma device_absent_Forall d st :
  device_absent d st ↔
  Forall (λ meta, Forall (λ map, dev map ≠ d) (maps meta)) (iommu_root st).
Proof.
  unfold device_absent. rewrite Forall_forall.
  split.
  - intros Habs meta Hmeta. apply Forall_forall. intros map. by apply Habs.
  - intros Hall meta map Hmeta Hmap.
    specialize (Hall meta Hmeta). rewrite Forall_forall in Hall.
    by apply Hall.
Qed.

Lemma meta_set_maps_same meta : meta_set_maps (maps meta) meta = meta.
Proof. by destruct meta. Qed.

Lemma unmap_all_absent d st :
  device_absent d st → msm_dma_unmap_all_for_dev d st = (st, 0).
Proof.
  rewrite device_absent_Forall, unmap_all_for_dev_spec. intros Hall.
  assert ((λ meta, meta_set_maps (sweep_kept d (maps meta)) meta) <$>
            iommu_root st = iommu_root st) as ->.
  { induction Hall as [|meta root Hm Hall IH]; [done|].
    rewrite fmap_cons, IH.
    destruct (sweep_absent d _ Hm) as (-> & _ & _).
    by rewrite meta_set_maps_same. }
  assert ((iommu_root st ≫= λ meta, sweep_freed d (maps meta)) = []) as ->.
  { induction Hall as [|meta root Hm Hall IH]; [done|].
    rewrite bind_cons, IH.
    by destruct (sweep_absent d _ Hm) as (_ & -> & _). }
  rewrite decide_False; last first.
  { intros (meta & Hmeta & Hfails)%Exists_exists.
    rewrite Forall_forall in Hall.
    by destruct (sweep_absent d _ (Hall meta Hmeta)) as (_ & _ & ?). }
  simpl. rewrite app_nil_r. by destruct st.
Qed.

(** X8: a sweep for a device that has no map linked anywhere is a no-op
    with status 0: the tree, every count and the history of outside calls
    are as before. *)
Theorem unmap_all_for_dev_without_maps (d : device) (st : state) :
  device_absent d st → msm_dma_unmap_all_for_dev d st = (st, 0).
Proof. apply unmap_all_absent. Qed.

Lemma unmap_all_for_dev_without_maps_witness :
  device_absent 11 st_lazy ∧ msm_dma_unmap_all_for_dev 11 st_lazy = (st_lazy, 0).
Proof.
  assert (device_absent 11 st_lazy) as Habs.
  { apply device_absent_Forall. simpl. by repeat constructor. }
  split; [exact Habs|].
  exact (unmap_all_for_dev_without_maps 11 st_lazy Habs).
Defined.

Lemma sweep_kept_clear d l :
  Forall (λ map, dev map ≠ d) (sweep_kept d l) ↔ ¬ sweep_fails d l.
Proof.
  induction l as [|map l IH].
  - split; [|by constructor]. intros _. unfold sweep_fails.
    by intros ?%Exists_nil.
  - rewrite sweep_kept_cons, sweep_fails_cons.
    destruct (decide (dev map = d)) as [Hd|Hd].
    + destruct (atomic_dec_and_test (map_refcount map)) eqn:Hz.
      * rewrite IH. split; [intros Hn [[_ ?]|?]; [done|by apply Hn]|tauto].
      * split.
        -- intros [Hne _]%Forall_cons. by destruct Hne.
        -- intros Hn. destruct Hn. by left.
    + rewrite Forall_cons, IH. split; [intros [_ Hn] [[? _]|?]; [done|auto]|].
      intros Hn. split; [done|tauto].
Qed.

(** X9: msm_dma_unmap_all_for_dev returns 0 exactly when it leaves no map
    of the device linked under any meta, and after such a sweep a second
    sweep for the device changes nothing and returns 0 again. *)
Theorem unmap_all_for_dev_clears (d : device) (st : state) :
  let st' := (msm_dma_unmap_all_for_dev d st).1 in
  let ret := (msm_dma_unmap_all_for_dev d st).2 in
  (ret = 0 ↔ device_absent d st') ∧
  (ret = 0 → msm_dma_unmap_all_for_dev d st' = (st', 0)).
Proof.
  intros st' ret.
  assert (ret = 0 ↔ device_absent d st') as Hiff.
  { subst st' ret. rewrite device_absent_Forall, unmap_all_for_dev_spec.
    cbn [fst snd iommu_root]. rewrite Forall_fmap.
    destruct (decide (Exists _ (iommu_root st))) as [Hex|Hex].
    - split; [by (unfold EINVAL; lia)|]. intros Hall. exfalso.
      apply Exists_exists in Hex as (meta & Hmeta & Hfails).
      rewrite Forall_forall in Hall. specialize (Hall meta Hmeta).
      simpl in Hall. by apply sweep_kept_clear in Hall.
    - split; [intros _|done]. apply Forall_forall. intros meta Hmeta.
      simpl. apply sweep_kept_clear. intros Hfails. apply Hex.
      apply Exists_exists. by exists meta. }
  split; [exact Hiff|].
  intros Hret. apply unmap_all_absent. by apply Hiff.
Qed.

Lemma unmap_all_for_dev_clears_witness :
  (msm_dma_unmap_all_for_dev 10 st_eager).2 = 0 ∧
  device_absent 10 (msm_dma_unmap_all_for_dev 10 st_eager).1 ∧
  msm_dma_unmap_all_for_dev 10 (msm_dma_unmap_all_for_dev 10 st_eager).1
    = ((msm_dma_unmap_all_for_dev 10 st_eager).1, 0).
Proof.
  destruct (unmap_all_for_dev_clears 10 st_eager) as [Hiff Hagain].
  split; [reflexivity|].
  split; [exact (proj1 Hiff eq_refl)|exact (Hagain eq_refl)].
Defined.

Lemma sweep_kept_lookup_other d d' l :
  d' ≠ d →
  snd <$> list_find (λ map, dev map = d') (sweep_kept d l)
  = snd <$> list_find (λ map, dev map = d') l.
Proof.
  intros Hne. induction l as [|map l IH]; [done|].
  rewrite sweep_kept_cons. cbn [list_find].
  destruct (decide (dev map = d)) as [Hd|Hd].
  - rewrite (decide_False (P := dev map = d')) by congruence.
    rewrite snd_shift.
    destruct (atomic_dec_and_test (map_refcount map)); [exact IH|].
    cbn [list_find]. rewrite (decide_False (P := dev (map_put map) = d'))
      by (simpl; congruence).
    by rewrite snd_shift.
  - cbn [list_find]. destruct (decide (dev map = d')); [done|].
    by rewrite !snd_shift.
Qed.

(** X10: a sweep for one device does not touch the others.  Every meta
    stays at its place in the tree with its key and its count, and for any
    other device the search of its list returns the same map record as
    before the sweep. *)
Theorem unmap_all_for_dev_other_devices (d d' : device) (st : state) :
  d' ≠ d →
  let st' := (msm_dma_unmap_all_for_dev d st).1 in
  length (iommu_root st') = length (iommu_root st) ∧
  ∀ i meta,
    iommu_root st !! i = Some meta →
    ∃ meta',
      iommu_root st' !! i = Some meta' ∧
      buffer meta' = buffer meta ∧
      meta_refcount meta' = meta_refcount meta ∧
      snd <$> msm_iommu_map_lookup meta' d'
        = snd <$> msm_iommu_map_lookup meta d'.
Proof.
  intros Hne st'. subst st'. rewrite unmap_all_for_dev_spec.
  cbn [fst iommu_root]. split; [by rewrite length_fmap|].
  intros i meta Hi. eexists. split.
  { rewrite list_lookup_fmap, Hi. reflexivity. }
  split_and!; [done..|].
  unfold msm_iommu_map_lookup. simpl. by apply sweep_kept_lookup_other.
Qed.

Lemma unmap_all_for_dev_other_devices_witness :
  (11 : Z) ≠ 10 ∧
  ∃ meta',
    iommu_root (msm_dma_unmap_all_for_dev 11 st_lazy).1 !! 0%nat
      = Some meta' ∧
    snd <$> msm_iommu_map_lookup meta' 10 = Some (sample_map 2).
Proof.
  assert ((10 : Z) ≠ 11) as Hne by discriminate.
  destruct (unmap_all_for_dev_other_devices 11 10 st_lazy Hne) as [_ Hkeep].
  destruct (Hkeep 0%nat (mk_meta [sample_map 2] 2 100) eq_refl)
    as (meta' & Hi & _ & _ & Hlook).
  split; [discriminate|]. exists meta'. split; [exact Hi|exact Hlook].
Defined.

(** ** Operations on one buffer leave the others alone *)

Lemma list_find_insert_other {A} (Q : A → Prop) `{!∀ x, Decision (Q x)}
    (l : list A) i x y :
  l !! i = Some y → ¬ Q y → ¬ Q x →
  list_find Q (<[i := x]> l) = list_find Q l.
Proof.
  revert i. induction l as [|z l IH]; intros [|i] Hi Hy Hx; simplify_eq/=.
  - by rewrite !decide_False.
  - destruct (decide (Q z)); [done|]. f_equal. by apply IH.
Qed.

Lemma list_find_delete_other {A} (Q : A → Prop) `{!∀ x, Decision (Q x)}
    (l : list A) i y :
  l !! i = Some y → ¬ Q y →
  snd <$> list_find Q (delete i l) = snd <$> list_find Q l.
Proof.
  revert i. induction l as [|z l IH]; intros [|i] Hi Hy; simplify_eq/=.
  - rewrite decide_False by done. by rewrite snd_shift.
  - destruct (decide (Q z)); [done|]. rewrite !snd_shift. by apply IH.
Qed.

Lemma put_result_other buf' i meta meta' root tr :
  root !! i = Some meta → buffer meta ≠ buf' → buffer meta' ≠ buf' →
  snd <$> msm_iommu_meta_lookup buf' (iommu_root (put_result i meta' root tr))
  = snd <$> msm_iommu_meta_lookup buf' root.
Proof.
  intros Hi Hb Hb'. unfold put_result, msm_iommu_meta_lookup.
  destruct (decide (meta_refcount meta' = 0)); cbn [iommu_root].
  - by eapply list_find_delete_other.
  - by erewrite list_find_insert_other.
Qed.

(** X11: the public operations on one buffer leave the other buffers
    alone.  After a map call that returns, an unmap call or a
    msm_dma_buf_freed call for buffer [buf], the search for any other key
    returns the same meta record, with the same maps and counts, as
    before. *)
Theorem other_buffers_untouched `{Platform} (buf buf' : Z) :
  buf' ≠ buf →
  (∀ fuel d sg n dr attrs st st' sg' r,
     msm_dma_map_sg_attrs fuel d sg n dr buf attrs st = Some (st', sg', r) →
     snd <$> msm_iommu_meta_lookup buf' (iommu_root st')
     = snd <$> msm_iommu_meta_lookup buf' (iommu_root st)) ∧
  (∀ d st,
     snd <$> msm_iommu_meta_lookup buf' (iommu_root (msm_dma_unmap_sg d buf st))
     = snd <$> msm_iommu_meta_lookup buf' (iommu_root st)) ∧
  (∀ st,
     snd <$> msm_iommu_meta_lookup buf' (iommu_root (msm_dma_buf_freed buf st))
     = snd <$> msm_iommu_meta_lookup buf' (iommu_root st)).
Proof.
  intros Hne. split_and!.
  - intros fuel d sg n dr attrs st st' sg' r [_ Hcase]%map_inv.
    destruct Hcase as [i meta j map Hmeta Hmap
                      |i meta tr1 tr2 sg2 Hmeta Hmap _ _
                      |tr0 tr1 tr2 sg2 Hmeta _ _ _]; cbn [iommu_root emit set_root].
    + apply meta_lookup_Some in Hmeta as [Hi Hb].
      unfold msm_iommu_meta_lookup.
      erewrite list_find_insert_other; [done|exact Hi|..]; simpl; congruence.
    + apply meta_lookup_Some in Hmeta as [Hi Hb].
      unfold msm_iommu_meta_lookup.
      erewrite list_find_insert_other; [done|exact Hi|..]; simpl; congruence.
    + by apply meta_add_lookup_other.
  - intros d st.
    destruct (msm_iommu_meta_lookup buf (iommu_root st)) as [[i meta]|] eqn:Hmeta;
      [|by rewrite unmap_sg_no_meta].
    destruct (msm_iommu_map_lookup meta d) as [[j map]|] eqn:Hmap;
      [|by erewrite unmap_sg_no_map].
    rewrite (unmap_sg_found _ _ _ _ _ _ _ Hmeta Hmap).
    apply meta_lookup_Some in Hmeta as [Hi Hb].
    destruct (atomic_dec_and_test (map_refcount map));
      (eapply put_result_other; [exact Hi|..]; simpl; congruence).
  - intros st.
    destruct (msm_iommu_meta_lookup buf (iommu_root st)) as [[i meta]|] eqn:Hmeta;
      [|by unfold msm_dma_buf_freed; rewrite Hmeta].
    rewrite (buf_freed_found _ _ _ _ Hmeta).
    apply meta_lookup_Some in Hmeta as [Hi Hb].
    eapply put_result_other; [exact Hi|..]; simpl; congruence.
Qed.

Lemma other_buffers_untouched_witness :
  (100 : Z) ≠ 50 ∧
  snd <$> msm_iommu_meta_lookup 100
            (iommu_root (msm_dma_buf_freed 50 st_lazy))
    = snd <$> msm_iommu_meta_lookup 100 (iommu_root st_lazy).
Proof.
  assert ((100 : Z) ≠ 50) as Hne by discriminate.
  split; [exact Hne|].
  exact (proj2 (proj2 (other_buffers_untouched (H := sample_platform)
                         50 100 Hne)) st_lazy).
Defined.

(** ** Releases come in pairs *)

Lemma paired_app a b : paired a → paired b → paired (a ++ b).
Proof.
  intros Ha Hb. induction Ha as [|map tr Hz Ha IH|e tr He Ha IH]; simpl.
  - done.
  - by apply paired_release.
  - by apply paired_other.
Qed.

Lemma paired_others evs :
  Forall (λ e, is_release e = false) evs → paired evs.
Proof.
  induction 1 as [|e evs He Hall IH]; [constructor|].
  by apply paired_other.
Qed.

Lemma paired_unmap_and_free map :
  map_refcount map = 0 → paired (unmap_and_free map).
Proof. intros Hz. apply paired_release; [done|constructor]. Qed.

Lemma paired_drain (l : list msm_iommu_map) :
  Forall (λ map, map_refcount map = 0) l → paired (l ≫= unmap_and_free).
Proof.
  induction 1 as [|map l Hz Hall IH]; [constructor|].
  rewrite bind_cons. apply paired_app; [by apply paired_unmap_and_free|done].
Qed.

Lemma map_put_zero map :
  atomic_dec_and_test (map_refcount map) = true → map_refcount (map_put map) = 0.
Proof. unfold atomic_dec_and_test. simpl. by intros ?%Z.eqb_eq. Qed.

Lemma drain_freed_zero l :
  Forall (λ map, map_refcount map = 0) (drain_freed l).
Proof.
  unfold drain_freed. apply Forall_fmap, Forall_forall.
  intros map [Hz _]%list_elem_of_filter. apply map_put_zero.
  by destruct (atomic_dec_and_test (map_refcount map)).
Qed.

Lemma sweep_freed_zero d l :
  Forall (λ map, map_refcount map = 0) (sweep_freed d l).
Proof.
  unfold sweep_freed. apply Forall_fmap, Forall_forall.
  intros map [[_ Hz] _]%list_elem_of_filter. apply map_put_zero.
  by destruct (atomic_dec_and_test (map_refcount map)).
Qed.

Lemma put_result_trace i meta' root tr :
  ∃ tail, trace (put_result i meta' root tr) = tr ++ tail ∧ paired tail.
Proof.
  unfold put_result. destruct (decide (meta_refcount meta' = 0)); simpl.
  - eexists. split; [done|]. apply paired_other; [done|constructor].
  - exists []. split; [by rewrite app_nil_r|constructor].
Qed.

Section Paired.
Context `{P : Platform}.

Lemma kmalloc_retry_paired fuel k tr tr' :
  kmalloc_retry fuel k tr = Some tr' →
  ∃ evs, tr' = tr ++ evs ∧ paired evs.
Proof.
  intros (n & _ & ->)%kmalloc_retry_events. eexists. split; [done|].
  apply paired_others, Forall_app. split.
  - by apply Forall_replicate.
  - by repeat constructor.
Qed.

Lemma dma_map_retry_paired fuel d sg n dr attrs tr tr' sg' :
  dma_map_retry fuel d sg n dr attrs tr = Some (tr', sg') →
  ∃ evs, tr' = tr ++ evs ∧ paired evs.
Proof.
  intros (m & ret & _ & _ & ->)%dma_map_retry_events.
  eexists. split; [done|].
  apply paired_others, Forall_app. split.
  - by apply Forall_replicate.
  - by repeat constructor.
Qed.

Lemma step_paired st st' :
  step st st' → ∃ evs, trace st' = trace st ++ evs ∧ paired evs.
Proof.
  intros Hstep. destruct Hstep as [fuel d sg n dr buf attrs st st' sg' r Hrun
                                  |d buf st|d st|buf st].
  - apply map_inv in Hrun as [_ Hcase].
    destruct Hcase as [i meta j map Hmeta Hmap
                      |i meta tr1 tr2 sg2 Hmeta Hmap Hk Hm
                      |tr0 tr1 tr2 sg2 Hmeta Hk0 Hk Hm]; cbn [trace emit set_root].
    + eexists. split; [done|]. unfold barrier.
      destruct (is_device_dma_coherent d); [|constructor].
      apply paired_other; [done|constructor].
    + apply kmalloc_retry_paired in Hk as (e1 & -> & H1).
      apply dma_map_retry_paired in Hm as (e2 & -> & H2).
      exists (e1 ++ e2). split; [by rewrite (assoc_L (++))|].
      by apply paired_app.
    + apply kmalloc_retry_paired in Hk0 as (e0 & -> & H0).
      apply kmalloc_retry_paired in Hk as (e1 & -> & H1).
      apply dma_map_retry_paired in Hm as (e2 & -> & H2).
      exists (e0 ++ e1 ++ e2). split; [by rewrite !(assoc_L (++))|].
      by repeat apply paired_app.
  - destruct (msm_iommu_meta_lookup buf (iommu_root st)) as [[i meta]|] eqn:Hmeta;
      [|rewrite unmap_sg_no_meta by done; exists [];
        split; [by rewrite app_nil_r|constructor]].
    destruct (msm_iommu_map_lookup meta d) as [[j map]|] eqn:Hmap;
      [|erewrite unmap_sg_no_map by done; exists [];
        split; [by rewrite app_nil_r|constructor]].
    rewrite (unmap_sg_found _ _ _ _ _ _ _ Hmeta Hmap).
    destruct (atomic_dec_and_test (map_refcount map)) eqn:Hz.
    + destruct (put_result_trace i
                  (released_meta meta (delete j (maps meta))) (iommu_root st)
                  (trace st ++ unmap_and_free (map_put map)))
        as (tail & -> & Htail).
      eexists. split; [by rewrite <-(assoc_L (++))|].
      apply paired_app; [|done].
      by apply paired_unmap_and_free, map_put_zero.
    + destruct (put_result_trace i
                  (released_meta meta (<[j := map_put map]> (maps meta)))
                  (iommu_root st) (trace st))
        as (tail & -> & Htail).
      by exists tail.
  - rewrite unmap_all_for_dev_spec. cbn [fst trace].
    eexists. split; [done|]. apply paired_drain.
    apply Forall_forall. intros map (meta & Hin & _)%list_elem_of_bind.
    pose proof (sweep_freed_zero d (maps meta)) as Hall.
    rewrite Forall_forall in Hall. by apply Hall.
  - destruct (msm_iommu_meta_lookup buf (iommu_root st)) as [[i meta]|] eqn:Hmeta;
      [|unfold msm_dma_buf_freed; rewrite Hmeta; exists [];
        split; [by rewrite app_nil_r|constructor]].
    rewrite (buf_freed_found _ _ _ _ Hmeta).
    destruct (put_result_trace i (released_meta meta []) (iommu_root st)
                (trace st ++ (drain_freed (maps meta) ≫= unmap_and_free)))
      as (tail & -> & Htail).
    eexists. split; [by rewrite <-(assoc_L (++))|].
    apply paired_app; [|done]. apply paired_drain, drain_freed_zero.
Qed.

End Paired.

(** X12: in the history of outside calls of every state the four public
    operations can reach from the empty cache, each dma_unmap_sg is
    followed at once by the kfree of the same map record, that record's
    count is 0, and no map record is freed without the dma_unmap_sg before
    it. *)
Theorem releases_are_paired `{Platform} (st : state) :
  reachable st → paired (trace st).
Proof.
  induction 1 as [|st st' _ IH Hstep]; [constructor|].
  apply step_paired in Hstep as (evs & -> & Hevs).
  by apply paired_app.
Qed.

Lemma releases_are_paired_witness :
  reachable (H := sample_platform) (msm_dma_unmap_sg 10 100 st_eager) ∧
  paired (trace (msm_dma_unmap_sg 10 100 st_eager)).
Proof.
  assert (reachable (H := sample_platform) (msm_dma_unmap_sg 10 100 st_eager))
    as Hreach.
  { eapply reachable_step; [|apply step_unmap].
    eapply reachable_step; [apply reachable_init|].
    by apply (step_map 2%nat 10 sample_sg 1 DMA_TO_DEVICE 100 (Some 8)
                       empty_state st_eager sample_sgl 1). }
  split; [exact Hreach|].
  exact (releases_are_paired _ Hreach).
Defined.

(** ** Operations for one device leave the maps of the others alone *)

(** X13: under a meta that stays in the tree, a map call or an unmap call
    for device [d] does not touch the maps of another device [d']: the
    search of the meta's list for [d'] returns the same map record, with
    the same count and cached address, as before.  For the unmap call the
    meta stays when the call finds no map of [d] or when the meta's count
    does not reach 0. *)
Theorem other_devices_untouched `{Platform} (d d' : device) (buf : Z)
    (st : state) i meta :
  d' ≠ d →
  msm_iommu_meta_lookup buf (iommu_root st) = Some (i, meta) →
  (∀ fuel sg n dr attrs st' sg' r,
     msm_dma_map_sg_attrs fuel d sg n dr buf attrs st = Some (st', sg', r) →
     ∃ meta',
       msm_iommu_meta_lookup buf (iommu_root st') = Some (i, meta') ∧
       snd <$> msm_iommu_map_lookup meta' d'
         = snd <$> msm_iommu_map_lookup meta d') ∧
  (msm_iommu_map_lookup meta d = None ∨
   atomic_dec_return (meta_refcount meta) ≠ 0 →
   ∃ meta',
     msm_iommu_meta_lookup buf (iommu_root (msm_dma_unmap_sg d buf st))
       = Some (i, meta') ∧
     snd <$> msm_iommu_map_lookup meta' d'
       = snd <$> msm_iommu_map_lookup meta d').
Proof.
  intros Hne Hmeta. pose proof Hmeta as [Hi Hb]%meta_lookup_Some. split.
  - intros fuel sg n dr attrs st' sg' r [_ Hcase]%map_inv.
    destruct Hcase as [i0 meta0 j map Hmeta0 Hmap
                      |i0 meta0 tr1 tr2 sg2 Hmeta0 Hmap _ _
                      |tr0 tr1 tr2 sg2 Hmeta0 _ _ _]; [| |congruence];
      rewrite Hmeta in Hmeta0; simplify_eq; cbn [iommu_root emit set_root].
    + eexists. split; [by eapply meta_lookup_insert_found|].
      pose proof Hmap as [Hj Hd]%map_lookup_Some.
      unfold msm_iommu_map_lookup, reused_meta. cbn [maps].
      erewrite list_find_insert_other; [done|exact Hj|..]; simpl; congruence.
    + eexists. split; [by eapply meta_lookup_insert_found|].
      unfold msm_iommu_map_lookup, extended_meta. cbn [maps list_find].
      rewrite decide_False by (simpl; congruence). by rewrite snd_shift.
  - intros Hstay.
    destruct (msm_iommu_map_lookup meta d) as [[j map]|] eqn:Hmap; last first.
    { erewrite unmap_sg_no_map by done. by exists meta. }
    destruct Hstay as [?|Hnz]; [done|].
    rewrite (unmap_sg_found _ _ _ _ _ _ _ Hmeta Hmap).
    pose proof Hmap as [Hj Hd]%map_lookup_Some.
    unfold msm_iommu_map_lookup.
    destruct (atomic_dec_and_test (map_refcount map));
      unfold put_result, released_meta; cbn [meta_refcount];
      rewrite decide_False by done; cbn [iommu_root];
      (eexists; split; [by eapply meta_lookup_insert_found|]); cbn [maps].
    + eapply list_find_delete_other; [exact Hj|congruence].
    + erewrite list_find_insert_other; [done|exact Hj|..]; simpl; congruence.
Qed.

Lemma other_devices_untouched_witness :
  (10 : Z) ≠ 11 ∧
  ∃ st' meta',
    msm_dma_map_sg_attrs (P := sample_platform) 2 11 sample_sg 1
                         DMA_TO_DEVICE 100 None st_lazy
      = Some (st', {| page_link := 7; offset := 16; sg_length := 512;
                      dma_address := 45072; dma_length := 512 |}, 1) ∧
    msm_iommu_meta_lookup 100 (iommu_root st') = Some (0%nat, meta') ∧
    snd <$> msm_iommu_map_lookup meta' 10 = Some (sample_map 2).
Proof.
  assert ((10 : Z) ≠ 11) as Hne by discriminate.
  split; [exact Hne|].
  destruct (other_devices_untouched (H := sample_platform) 11 10 100 st_lazy
              0%nat (mk_meta [sample_map 2] 2 100) Hne eq_refl)
    as [Hmap _].
  destruct (Hmap 2%nat sample_sg 1 DMA_TO_DEVICE None _ _ 1 eq_refl)
    as (meta' & Hlook & Hkeep).
  eexists _, meta'. split; [reflexivity|]. split; [exact Hlook|exact Hkeep].
Defined.

(** ** Map calls that overlap *)

Section Overlap.
Context `{P : Platform}.

(** The segments run back to back are the whole call. *)
Lemma map_run_alone_whole c st :
  map_run_alone c st =
  msm_dma_map_sg_attrs (mc_fuel c) (mc_dev c) (mc_sg c) (mc_nents c)
                       (mc_dir c) (mc_buf c) (mc_attrs c) st.
Proof.
  unfold map_run_alone, msm_dma_map_sg_attrs, map_find_meta.
  cbn [map_segment].
  destruct (msm_iommu_meta_lookup (mc_buf c) (iommu_root st))
    as [[i meta]|] eqn:Hmeta; cbn [mbind option_bind map_segment].
  - apply meta_lookup_Some in Hmeta as [Hi _]. rewrite Hi.
    cbn [mbind option_bind].
    destruct (msm_iommu_map_lookup meta (mc_dev c)) as [[j map]|];
      cbn [mbind option_bind map_segment]; [done|].
    destruct (kmalloc_retry _ _ _) as [tr1|]; cbn [mbind option_bind]; [|done].
    by destruct (dma_map_retry _ _ _ _ _ _ _) as [[tr2 sg']|].
  - destruct (kmalloc_retry _ ALLOC_META _) as [tr0|];
      cbn [mbind option_bind map_segment trace]; [|done].
    destruct (kmalloc_retry _ ALLOC_MAP _) as [tr1|];
      cbn [mbind option_bind]; [|done].
    by destruct (dma_map_retry _ _ _ _ _ _ _) as [[tr2 sg']|].
Qed.

(** A call that runs alone in the pool reaches what its segments give. *)
Lemma overlapped_segments_alone c st pc1 st1 i1 pc2 st2 i2 pc3 st3 i3 :
  overlapped [] st →
  map_segment c pc_lookup st = Some (pc1, st1, i1) →
  map_segment c pc1 st1 = Some (pc2, st2, i2) →
  map_segment c pc2 st2 = Some (pc3, st3, i3) →
  overlapped [(c, pc3)] st3.
Proof.
  intros H0 H1 H2 H3.
  apply (overlapped_call _ _ c) in H0.
  apply (overlapped_segment _ _ 0%nat _ _ _ _ _ H0 eq_refl) in H1.
  apply (overlapped_segment _ _ 0%nat _ _ _ _ _ H1 eq_refl) in H2.
  apply (overlapped_segment _ _ 0%nat _ _ _ _ _ H2 eq_refl) in H3.
  exact H3.
Qed.

End Overlap.


